(** * Stock dashboard: the data fetcher and the polling controller

    A shallow embedding of
    - [frontend/src/services/stockApi.js] (the function [fetchStockDataApi]),
    - the component [App] of the frontend (hooks, [fetchData], the effect
      that is meant to poll),
    together with the statements of the specification that concern them.

    JavaScript strings are modelled as sequences of code points, JSON
    values as an inductive type, the asynchronous fetch as a small free
    monad whose only effects are [console.log] and [await fetch(url)], and
    the component as a transition system over its hook state, its update
    queue, the timer table of the window and the fetches in flight. *)

From Stdlib Require Import NArith ZArith QArith List String Ascii Lia Bool.
From Stdlib Require Import DecimalString.
From stdpp Require Import gmap.

Set Warnings "-register-all".
Import ListNotations.
Local Open Scope N_scope.
Local Open Scope list_scope.

(** ** Strings *)

(** A JavaScript string, as the sequence of its code points. *)
Abbreviation jsstring := (list N).

(** A literal of the source. *)
Definition str (s : string) : jsstring :=
  List.map N_of_ascii (list_ascii_of_string s).

(** [WhiteSpace] and [LineTerminator] of ECMAScript, the code points that
    [String.prototype.trim] strips. *)
Definition isWhiteSpace (c : N) : bool :=
  (c =? 0x9) || (c =? 0xA) || (c =? 0xB) || (c =? 0xC) || (c =? 0xD) ||
  (c =? 0x20) || (c =? 0xA0) || (c =? 0x1680) ||
  ((0x2000 <=? c) && (c <=? 0x200A)) ||
  (c =? 0x2028) || (c =? 0x2029) || (c =? 0x202F) || (c =? 0x205F) ||
  (c =? 0x3000) || (c =? 0xFEFF).

Fixpoint trimStart (s : jsstring) : jsstring :=
  match s with
  | [] => []
  | c :: s' => if isWhiteSpace c then trimStart s' else s
  end.

Definition trimEnd (s : jsstring) : jsstring := rev (trimStart (rev s)).

(** [s.trim()] *)
Definition trim (s : jsstring) : jsstring := trimEnd (trimStart s).

(** The upper-case mapping of the code points outside ASCII is the Unicode
    table of the JavaScript engine; the program does not contain it, so it
    is the one parameter of the development. *)
Class CaseTable := { unicode_upper : N -> list N }.

(** The engine's mapping on one code point: ASCII letters are shifted, the
    rest of ASCII is unchanged, everything else is looked up. *)
Definition toUppercase_cp `{CaseTable} (c : N) : list N :=
  if c <? 0x80 then
    if (0x61 <=? c) && (c <=? 0x7A) then [c - 0x20] else [c]
  else unicode_upper c.

(** [s.toUpperCase()] *)
Definition toUpperCase `{CaseTable} (s : jsstring) : jsstring :=
  flat_map toUppercase_cp s.

(** What the Unicode tables guarantee and the proofs about normalisation
    use: a code point has a non-empty upper-case form, that form is made of
    code points that are their own upper-case form, and casing never
    produces white space out of something else. *)
Class CaseTableLaws `{CaseTable} : Prop := {
  upper_nonempty : forall c, toUppercase_cp c <> [];
  upper_fixed : forall c d, In d (toUppercase_cp c) -> toUppercase_cp d = [d];
  upper_no_space : forall c d,
    isWhiteSpace c = false -> In d (toUppercase_cp c) -> isWhiteSpace d = false
}.

(** A table that leaves every code point outside ASCII alone; it agrees
    with every engine on ASCII input. *)
Definition ascii_only : CaseTable := {| unicode_upper := fun c => [c] |}.

(** The symbol normalisation of the specification. *)
Definition normalize `{CaseTable} (s : jsstring) : jsstring :=
  toUpperCase (trim s).

(** [String(n)] for a non-negative integer. *)
Definition Number_toString (n : N) : jsstring :=
  str (NilZero.string_of_uint (N.to_uint n)).

(** [!!s]: the empty string is the only falsy one. *)
Definition string_truthy (s : jsstring) : bool :=
  match s with
  | [] => false
  | _ :: _ => true
  end.

(** [hay.includes(needle)], as a proposition. *)
Definition contains (hay needle : jsstring) : Prop :=
  exists pre post, hay = pre ++ needle ++ post.

(** ** Values *)

(** The values the [interval] state holds: a string, or the promise that
    a call of [fetchData] returned. *)
Inductive jsval :=
| VStr (s : jsstring)
| VPromise (id : nat).

Definition jsstring_eqb (a b : jsstring) : bool :=
  bool_decide (a = b).

(** [Object.is] / SameValueZero on these values. *)
Definition sameValue (a b : jsval) : bool :=
  match a, b with
  | VStr x, VStr y => jsstring_eqb x y
  | VPromise i, VPromise j => Nat.eqb i j
  | _, _ => false
  end.

(** [arr.includes(v)] *)
Definition Array_includes (arr : list jsval) (v : jsval) : bool :=
  existsb (fun x => sameValue x v) arr.

(** [String(v)] *)
Definition ToString (v : jsval) : jsstring :=
  match v with
  | VStr s => s
  | VPromise _ => str "[object Promise]"
  end.

(** A parsed JSON document. [JNum] carries the value of the number. *)
Inductive json :=
| JNull
| JBool (b : bool)
| JNum (q : Q)
| JStr (s : jsstring)
| JArr (items : list json)
| JObj (fields : list (jsstring * json)).

(** [!!v] *)
Definition truthy (v : json) : bool :=
  match v with
  | JNull => false
  | JBool b => b
  | JNum q => negb (Qeq_bool q 0)
  | JStr s => string_truthy s
  | JArr _ | JObj _ => true
  end.

(** What JavaScript throws. All the errors the program raises itself are
    plain [Error]s, told apart by their message. *)
Inductive js_error :=
| Error (message : jsstring)
| TypeError (message : jsstring)
| SyntaxError (message : jsstring).

Definition message (e : js_error) : jsstring :=
  match e with Error m | TypeError m | SyntaxError m => m end.

Fixpoint assoc (k : jsstring) (fields : list (jsstring * json)) : option json :=
  match fields with
  | [] => None
  | (k', v) :: rest => if jsstring_eqb k' k then Some v else assoc k rest
  end.

(** [v.history]: [None] is [undefined]; reading a property of [null]
    throws. *)
Definition get_history (v : json) : js_error + option json :=
  match v with
  | JNull => inl (TypeError (str "Cannot read properties of null (reading 'history')"))
  | JObj fields => inr (assoc (str "history") fields)
  | _ => inr None
  end.

(** [Array.isArray(x)] *)
Definition Array_isArray (x : option json) : bool :=
  match x with
  | Some (JArr _) => true
  | _ => false
  end.

(** ** The network *)

(** A response, with what [response.json()] will give. *)
Record Response := {
  status : N;
  statusText : jsstring;
  json_body : js_error + json
}.

(** [response.ok] *)
Definition ok (r : Response) : bool :=
  (200 <=? status r) && (status r <=? 299).

(** How [fetch(url)] settles. *)
Inductive fetch_outcome :=
| Resolved (r : Response)
| Rejected (e : js_error).

(** ** Asynchronous programs *)

Inductive prog (A : Type) : Type :=
| Ret (a : A)
| Throw (e : js_error)
| ConsoleLog (msg : jsstring) (k : prog A)
| AwaitFetch (url : jsstring) (k : fetch_outcome -> prog A).

Arguments Ret {A} a.
Arguments Throw {A} e.
Arguments ConsoleLog {A} msg k.
Arguments AwaitFetch {A} url k.

Fixpoint bind {A B} (p : prog A) (f : A -> prog B) : prog B :=
  match p with
  | Ret a => f a
  | Throw e => Throw e
  | ConsoleLog m k => ConsoleLog m (bind k f)
  | AwaitFetch u k => AwaitFetch u (fun o => bind (k o) f)
  end.

Notation "x <- p ;; q" := (bind p (fun x => q))
  (at level 100, p at next level, right associativity).
Notation "p ;;; q" := (bind p (fun _ => q))
  (at level 100, right associativity).

Definition console_log (msg : jsstring) : prog unit := ConsoleLog msg (Ret tt).

(** [await fetch(url)] *)
Definition fetch (url : jsstring) : prog Response :=
  AwaitFetch url (fun o =>
    match o with
    | Resolved r => Ret r
    | Rejected e => Throw e
    end).

(** [await response.json()] *)
Definition response_json (r : Response) : prog json :=
  match json_body r with
  | inl e => Throw e
  | inr v => Ret v
  end.

Definition lift {A} (r : js_error + A) : prog A :=
  match r with
  | inl e => Throw e
  | inr a => Ret a
  end.

(** What a program did. *)
Inductive effect :=
| Logged (msg : jsstring)
| Get (url : jsstring).

(** Run a program to the end against a network. *)
Fixpoint run {A} (net : jsstring -> fetch_outcome) (p : prog A)
  : list effect * (js_error + A) :=
  match p with
  | Ret a => ([], inr a)
  | Throw e => ([], inl e)
  | ConsoleLog m k => let (t, r) := run net k in (Logged m :: t, r)
  | AwaitFetch u k => let (t, r) := run net (k (net u)) in (Get u :: t, r)
  end.

Definition requests_of (t : list effect) : list jsstring :=
  flat_map (fun e => match e with Get u => [u] | Logged _ => [] end) t.

(** ** [URLSearchParams] *)

Definition hex_digit (n : N) : N :=
  if n <? 10 then 0x30 + n else 0x41 + (n - 10).

(** [%XX] *)
Definition percent_byte (b : N) : jsstring :=
  [0x25; hex_digit (b / 16); hex_digit (b mod 16)].

(** UTF-8; a lone surrogate is replaced by U+FFFD first. *)
Definition utf8_encode (c : N) : list N :=
  let c := if (0xD800 <=? c) && (c <=? 0xDFFF) then 0xFFFD else c in
  if c <? 0x80 then [c]
  else if c <? 0x800 then [0xC0 + c / 64; 0x80 + c mod 64]
  else if c <? 0x10000 then
    [0xE0 + c / 4096; 0x80 + (c / 64) mod 64; 0x80 + c mod 64]
  else
    [0xF0 + c / 262144; 0x80 + (c / 4096) mod 64;
     0x80 + (c / 64) mod 64; 0x80 + c mod 64].

Definition isAlphaNum (c : N) : bool :=
  ((0x30 <=? c) && (c <=? 0x39)) ||
  ((0x41 <=? c) && (c <=? 0x5A)) ||
  ((0x61 <=? c) && (c <=? 0x7A)).

(** Left as they are by the [application/x-www-form-urlencoded]
    serializer: alphanumerics and [* - . _]. *)
Definition form_safe (c : N) : bool :=
  isAlphaNum c || (c =? 0x2A) || (c =? 0x2D) || (c =? 0x2E) || (c =? 0x5F).

Definition form_encode_cp (c : N) : jsstring :=
  if form_safe c then [c]
  else if c =? 0x20 then [0x2B]
  else flat_map percent_byte (utf8_encode c).

Definition form_encode (s : jsstring) : jsstring := flat_map form_encode_cp s.

(** [new URLSearchParams({...}).toString()] *)
Fixpoint URLSearchParams_toString (params : list (jsstring * jsstring)) : jsstring :=
  match params with
  | [] => []
  | [(k, v)] => form_encode k ++ str "=" ++ form_encode v
  | (k, v) :: rest =>
      form_encode k ++ str "=" ++ form_encode v ++ str "&" ++
      URLSearchParams_toString rest
  end.

(** ** [services/stockApi.js] *)

Definition API_BASE_URL : jsstring := str "http://localhost:5000".

Definition fetchStockDataApi `{CaseTable}
    (ticker period : jsstring) (interval : jsval) : prog json :=
  let upperTicker := toUpperCase (trim ticker) in
  if negb (string_truthy upperTicker)
  then Throw (Error (str "Ticker symbol is required."))
  else
    let params :=
      [(str "period", period); (str "interval", ToString interval)] in
    let apiUrl :=
      API_BASE_URL ++ str "/api/stockdata/" ++ upperTicker ++ str "?" ++
      URLSearchParams_toString params in
    console_log (str "Fetching data from: " ++ apiUrl) ;;;
    response <- fetch apiUrl ;;
    if negb (ok response)
    then Throw (Error (str "API Error (" ++ Number_toString (status response)
                       ++ str "): " ++ statusText response))
    else
      data <- response_json response ;;
      if negb (truthy data)
      then Throw (Error (str "Invalid data format received from API."))
      else
        history <- lift (get_history data) ;;
        if negb (Array_isArray history)
        then Throw (Error (str "Invalid data format received from API."))
        else Ret data.

(** The error kinds of the specification, as the program raises them. *)
Definition ValidationError : js_error := Error (str "Ticker symbol is required.").
Definition FormatError : js_error :=
  Error (str "Invalid data format received from API.").
Definition HttpError (r : Response) : js_error :=
  Error (str "API Error (" ++ Number_toString (status r) ++ str "): "
         ++ statusText r).

(** ** The component [App] *)

Definition DEFAULT_TICKER : jsstring := str "AAPL".
Definition DEFAULT_INTERVAL : jsstring := str "15m".
Definition POLLING_INTERVAL_MS : N := 30000.
Definition PERIOD_FOR_INTRADAY : jsstring := str "5d".

(** [pollingTimerRef.current]: [null] at first, then whatever line 35
    assigns. Timer handles of the window are positive integers. *)
Inductive refval :=
| RNull
| RUndefined
| RTimer (id : positive).

(** The hook state of one instance of [App]. *)
Record Hooks := {
  ticker : jsstring;
  interval : jsval;
  stockData : json;
  isLoading : bool;
  error : option jsstring;
  pollingTimerRef : refval
}.

(** What can be handed to the setter of the [interval] state: a value
    (line 44), or a function, which React applies to the previous state.
    The one function that the program hands over is the arrow function of
    line 35, closed over [ticker] and [interval]. *)
Inductive update :=
| SetValue (v : jsval)
| Updater (closure_ticker : jsstring) (closure_interval : jsval).

(** A repeating timer of the window: its period and its callback, a
    closure of the same shape. *)
Record timer := {
  period_ms : N;
  callback_ticker : jsstring;
  callback_interval : jsval
}.

(** A call of [fetchData] that has not finished: its [fetchStockDataApi]
    has settled already and the [await] has yet to resume, or it waits for
    the network. *)
Inductive call :=
| Settled (r : js_error + json)
| Waiting (k : fetch_outcome -> prog json)
| Finished.

Inductive phase := Fresh | Mounted | Unmounted.

(** The component in its environment. *)
Record World := {
  hooks : Hooks;
  lifecycle : phase;
  queue : list update;
  deps : jsstring * jsval;
  timers : gmap positive timer;
  next_timer : positive;
  calls : list call;
  effects : list effect
}.

Definition with_hooks (h : Hooks) (w : World) : World :=
  {| hooks := h; lifecycle := lifecycle w; queue := queue w; deps := deps w;
     timers := timers w; next_timer := next_timer w; calls := calls w;
     effects := effects w |}.

Definition is_mounted (w : World) : bool :=
  match lifecycle w with Mounted => true | _ => false end.

(** The setters of [useState]. For each state the hook record holds the
    value last handed to its setter: the value of the next committed render
    unless a later call replaces it first. React drops an update of a
    component that is not mounted. *)
Definition setStockData (d : json) (w : World) : World :=
  if is_mounted w then
    let h := hooks w in
    with_hooks {| ticker := ticker h; interval := interval h; stockData := d;
                  isLoading := isLoading h; error := error h;
                  pollingTimerRef := pollingTimerRef h |} w
  else w.

Definition setIsLoading (b : bool) (w : World) : World :=
  if is_mounted w then
    let h := hooks w in
    with_hooks {| ticker := ticker h; interval := interval h;
                  stockData := stockData h; isLoading := b; error := error h;
                  pollingTimerRef := pollingTimerRef h |} w
  else w.

Definition setError (e : option jsstring) (w : World) : World :=
  if is_mounted w then
    let h := hooks w in
    with_hooks {| ticker := ticker h; interval := interval h;
                  stockData := stockData h; isLoading := isLoading h; error := e;
                  pollingTimerRef := pollingTimerRef h |} w
  else w.

Definition setTicker (v : jsstring) (w : World) : World :=
  if is_mounted w then
    let h := hooks w in
    with_hooks {| ticker := v; interval := interval h;
                  stockData := stockData h; isLoading := isLoading h;
                  error := error h; pollingTimerRef := pollingTimerRef h |} w
  else w.

(** The setter that line 12 names [setInterval]: it queues the update and
    returns [undefined]. Inside [App] this binding hides the timer function
    of the window. *)
Definition setInterval (a : update) (w : World) : refval * World :=
  (RUndefined,
   if is_mounted w then
     {| hooks := hooks w; lifecycle := lifecycle w; queue := queue w ++ [a];
        deps := deps w; timers := timers w; next_timer := next_timer w;
        calls := calls w; effects := effects w |}
   else w).

(** The state write that React makes when it has computed the next
    [interval]. *)
Definition store_interval (v : jsval) (w : World) : World :=
  let h := hooks w in
  with_hooks {| ticker := ticker h; interval := v; stockData := stockData h;
                isLoading := isLoading h; error := error h;
                pollingTimerRef := pollingTimerRef h |} w.

(** [pollingTimerRef.current = r] *)
Definition set_ref (r : refval) (w : World) : World :=
  let h := hooks w in
  with_hooks {| ticker := ticker h; interval := interval h;
                stockData := stockData h; isLoading := isLoading h;
                error := error h; pollingTimerRef := r |} w.

(** The timer functions of the window. *)
Definition window_setInterval (t : jsstring) (i : jsval) (ms : N) (w : World)
  : refval * World :=
  (RTimer (next_timer w),
   {| hooks := hooks w; lifecycle := lifecycle w; queue := queue w;
      deps := deps w;
      timers := <[next_timer w :=
                   {| period_ms := ms; callback_ticker := t;
                      callback_interval := i |}]> (timers w);
      next_timer := Pos.succ (next_timer w);
      calls := calls w; effects := effects w |}).

Definition clearInterval (r : refval) (w : World) : World :=
  match r with
  | RTimer id =>
      {| hooks := hooks w; lifecycle := lifecycle w; queue := queue w;
         deps := deps w; timers := delete id (timers w);
         next_timer := next_timer w; calls := calls w; effects := effects w |}
  | RNull | RUndefined => w
  end.

(** [if (r)]: [null] and [undefined] are falsy, a handle is not. *)
Definition ref_truthy (r : refval) : bool :=
  match r with
  | RTimer _ => true
  | RNull | RUndefined => false
  end.

(** Run a program up to its first [await fetch]. *)
Fixpoint start (p : prog json) : list effect * call :=
  match p with
  | Ret a => ([], Settled (inr a))
  | Throw e => ([], Settled (inl e))
  | ConsoleLog m k => let (t, c) := start k in (Logged m :: t, c)
  | AwaitFetch u k => ([Get u], Waiting k)
  end.

Definition record_call (t : list effect) (c : call) (w : World) : nat * World :=
  (length (calls w),
   {| hooks := hooks w; lifecycle := lifecycle w; queue := queue w;
      deps := deps w; timers := timers w; next_timer := next_timer w;
      calls := calls w ++ [c]; effects := effects w ++ t |}).

Definition update_call (n : nat) (t : list effect) (c : call) (w : World) : World :=
  {| hooks := hooks w; lifecycle := lifecycle w; queue := queue w;
     deps := deps w; timers := timers w; next_timer := next_timer w;
     calls := <[n := c]> (calls w); effects := effects w ++ t |}.

(** Line 21. *)
Definition period_for (currentInterval : jsval) : jsstring :=
  if Array_includes [VStr (str "1m"); VStr (str "5m"); VStr (str "15m")]
       currentInterval
  then PERIOD_FOR_INTRADAY else str "1y".

(** [fetchData], up to its [await] (lines 19 to 23). The result is the
    promise of the call. *)
Definition fetchData `{CaseTable}
    (currentTicker : jsstring) (currentInterval : jsval) (w : World)
  : nat * World :=
  let w := setIsLoading true w in
  let w := setError None w in
  let period := period_for currentInterval in
  let (t, c) := start (fetchStockDataApi currentTicker period currentInterval) in
  record_call t c w.

(** [fetchData] from the [await] on (lines 24 to 29). *)
Definition fetchData_resume (r : js_error + json) (w : World) : World :=
  let w :=
    match r with
    | inr data => setStockData data w
    | inl err => setError (Some (message err)) w
    end in
  setIsLoading false w.

(** The call [n] goes on: the network has answered [o], or the call had
    settled without the network. *)
Definition settle (n : nat) (o : fetch_outcome) (w : World) : World :=
  match calls w !! n with
  | Some (Settled r) => fetchData_resume r (update_call n [] Finished w)
  | Some (Waiting k) =>
      let (t, c) := start (k o) in
      match c with
      | Settled r => fetchData_resume r (update_call n t Finished w)
      | _ => update_call n t c w
      end
  | Some Finished | None => w
  end.

(** The effect of lines 32 to 37, for the render whose values are [t] and
    [i], and the cleanup it returns. *)
Definition effect_body `{CaseTable} (t : jsstring) (i : jsval) (w : World) : World :=
  let (_, w) := fetchData t i w in
  let w :=
    if ref_truthy (pollingTimerRef (hooks w))
    then clearInterval (pollingTimerRef (hooks w)) w else w in
  let (r, w) := setInterval (Updater t i) w in
  set_ref r w.

Definition effect_cleanup (w : World) : World :=
  clearInterval (pollingTimerRef (hooks w)) w.

Definition set_deps (d : jsstring * jsval) (w : World) : World :=
  {| hooks := hooks w; lifecycle := lifecycle w; queue := queue w; deps := d;
     timers := timers w; next_timer := next_timer w; calls := calls w;
     effects := effects w |}.

Definition set_queue (q : list update) (w : World) : World :=
  {| hooks := hooks w; lifecycle := lifecycle w; queue := q; deps := deps w;
     timers := timers w; next_timer := next_timer w; calls := calls w;
     effects := effects w |}.

Definition set_lifecycle (p : phase) (w : World) : World :=
  {| hooks := hooks w; lifecycle := p; queue := queue w; deps := deps w;
     timers := timers w; next_timer := next_timer w; calls := calls w;
     effects := effects w |}.

(** React works off the queue of [interval]: a value replaces the state, a
    function is called and what it returns replaces the state. *)
Fixpoint flush `{CaseTable} (q : list update) (w : World) : World :=
  match q with
  | [] => w
  | SetValue v :: q' => flush q' (store_interval v w)
  | Updater t i :: q' =>
      let (p, w') := fetchData t i w in
      flush q' (store_interval (VPromise p) w')
  end.

Definition deps_changed (old new : jsstring * jsval) : bool :=
  negb (jsstring_eqb (fst old) (fst new) && sameValue (snd old) (snd new)).

(** A render and its commit: the queue is worked off; when [ticker] or
    [interval] differ from those of the last effect, the cleanup of that
    effect runs and then the effect of this render. *)
Definition render `{CaseTable} (w : World) : World :=
  let w := flush (queue w) (set_queue [] w) in
  let d := (ticker (hooks w), interval (hooks w)) in
  if deps_changed (deps w) d
  then set_deps d (effect_body (fst d) (snd d) (effect_cleanup w))
  else w.

Inductive event :=
| Mount
| Render
| ChangeTicker (v : jsstring)
| SelectInterval (v : jsstring)
| Settle (n : nat) (o : fetch_outcome)
| TimerFire (id : positive)
| Unmount.

Definition step `{CaseTable} (e : event) (w : World) : World :=
  match e with
  | Mount =>
      match lifecycle w with
      | Fresh =>
          let w := set_lifecycle Mounted w in
          let d := (ticker (hooks w), interval (hooks w)) in
          set_deps d (effect_body (fst d) (snd d) w)
      | _ => w
      end
  | Render => if is_mounted w then render w else w
  | ChangeTicker v => if is_mounted w then render (setTicker v w) else w
  | SelectInterval v =>
      if is_mounted w
      then render (snd (setInterval (SetValue (VStr v)) w)) else w
  | Settle n o => settle n o w
  | TimerFire id =>
      match timers w !! id with
      | Some tm => snd (fetchData (callback_ticker tm) (callback_interval tm) w)
      | None => w
      end
  | Unmount =>
      if is_mounted w
      then set_lifecycle Unmounted (set_queue [] (effect_cleanup w)) else w
  end.

(** Lines 11 to 16. *)
Definition initial_stockData : json :=
  JObj [(str "info", JNull); (str "history", JArr [])].

Definition initial_hooks : Hooks :=
  {| ticker := DEFAULT_TICKER; interval := VStr DEFAULT_INTERVAL;
     stockData := initial_stockData; isLoading := false; error := None;
     pollingTimerRef := RNull |}.

Definition init : World :=
  {| hooks := initial_hooks; lifecycle := Fresh; queue := [];
     deps := (DEFAULT_TICKER, VStr DEFAULT_INTERVAL);
     timers := ∅; next_timer := 1%positive; calls := []; effects := [] |}.

Inductive reachable `{CaseTable} : World -> Prop :=
| reachable_init : reachable init
| reachable_step e w : reachable w -> reachable (step e w).

Definition run_events `{CaseTable} (es : list event) (w : World) : World :=
  fold_left (fun w e => step e w) es w.

(** * The old frontend *)

(** [old_frontend/src/utils/api.js], [components/SearchBar.jsx] with the
    component [Dashboard] that follows it in the same file, and the
    component [StockCard]. *)
Module Old.

(** Asynchronous programs whose effects are [await fetch(url)] and
    [console.error(label, err)]. *)
Inductive task (A : Type) : Type :=
| Return (a : A)
| Raise (e : js_error)
| ConsoleError (label : jsstring) (err : js_error) (k : task A)
| Await (url : jsstring) (k : fetch_outcome -> task A).

Arguments Return {A} a.
Arguments Raise {A} e.
Arguments ConsoleError {A} label err k.
Arguments Await {A} url k.

(** [try { p } catch (error) { handler(error) }] *)
Fixpoint try_catch {A} (p : task A) (handler : js_error -> task A) : task A :=
  match p with
  | Return a => Return a
  | Raise e => handler e
  | ConsoleError l e k => ConsoleError l e (try_catch k handler)
  | Await u k => Await u (fun o => try_catch (k o) handler)
  end.

Inductive effect :=
| Requested (url : jsstring)
| ErrorLogged (label : jsstring) (err : js_error).

(** Run a program to the end against a network. *)
Fixpoint run {A} (net : jsstring -> fetch_outcome) (p : task A)
  : list effect * (js_error + A) :=
  match p with
  | Return a => ([], inr a)
  | Raise e => ([], inl e)
  | ConsoleError l e k => let (t, r) := run net k in (ErrorLogged l e :: t, r)
  | Await u k => let (t, r) := run net (k (net u)) in (Requested u :: t, r)
  end.

Definition requests_of (t : list effect) : list jsstring :=
  flat_map (fun e => match e with Requested u => [u] | ErrorLogged _ _ => [] end) t.

Definition errors_logged (t : list effect) : list (jsstring * js_error) :=
  flat_map (fun e => match e with
                     | ErrorLogged l err => [(l, err)]
                     | Requested _ => []
                     end) t.

(** ** [utils/api.js] *)

Definition BASE_URL : jsstring := str "http://127.0.0.1:5000".

Definition fetchStockData (symbol : jsstring) : task json :=
  try_catch
    (Await (BASE_URL ++ str "/api/stock/" ++ symbol) (fun o =>
       match o with
       | Rejected e => Raise e
       | Resolved response =>
           if negb (ok response)
           then Raise (Error (str "HTTP error! status: "
                              ++ Number_toString (status response)))
           else
             match json_body response with
             | inl e => Raise e
             | inr v => Return v
             end
       end))
    (fun error =>
       ConsoleError (str "Error fetching stock data:") error (Raise error)).

Definition fetchStockList : task json :=
  try_catch
    (Await (BASE_URL ++ str "/api/stock/list") (fun o =>
       match o with
       | Rejected e => Raise e
       | Resolved response =>
           if negb (ok response)
           then Raise (Error (str "HTTP error! status: "
                              ++ Number_toString (status response)))
           else
             match json_body response with
             | inl e => Raise e
             | inr v => Return v
             end
       end))
    (fun error =>
       ConsoleError (str "Error fetching stock list:") error (Raise error)).

(** ** [SearchBar] *)

Fixpoint is_prefix (a b : jsstring) : bool :=
  match a, b with
  | [], _ => true
  | _ :: _, [] => false
  | x :: a', y :: b' => (x =? y) && is_prefix a' b'
  end.

(** [needle] occurs in [hay]. *)
Fixpoint is_infix (hay needle : list N) : bool :=
  match hay with
  | [] => is_prefix needle []
  | _ :: hay' => is_prefix needle hay || is_infix hay' needle
  end.

(** The UTF-16 code units of a code point, and of a string: a code point
    above the basic plane is a pair of surrogates. *)
Definition utf16_encode (c : N) : list N :=
  if c <? 0x10000 then [c]
  else [0xD800 + (c - 0x10000) / 0x400; 0xDC00 + (c - 0x10000) mod 0x400].

Definition code_units (s : jsstring) : list N := flat_map utf16_encode s.

(** [hay.includes(needle)] of strings: [String.prototype.includes] looks
    for the code units of [needle] in those of [hay]. *)
Definition String_includes (hay needle : jsstring) : bool :=
  is_infix (code_units hay) (code_units needle).

(** [stockList.includes(x)] for a string [x], where [stockList] is the
    array of the initial state or whatever the backend sent as the list: an
    array looks for an element equal to [x], a string for [x] as a part of
    it, and nothing else has a method [includes]. *)
Definition includes (stockList : json) (x : jsstring) : js_error + bool :=
  match stockList with
  | JArr items =>
      inr (existsb (fun item => match item with
                                | JStr s => jsstring_eqb s x
                                | _ => false
                                end) items)
  | JStr s => inr (String_includes s x)
  | JNull =>
      inl (TypeError (str "Cannot read properties of null (reading 'includes')"))
  | JBool _ | JNum _ | JObj _ =>
      inl (TypeError (str "stockList.includes is not a function"))
  end.

(** What [handleSubmit] does, in order. *)
Inductive submit_effect :=
| PreventDefault
| OnSearch (symbol : jsstring)
| Alert (msg : jsstring).

(** Lines 10 to 17 of [SearchBar.jsx]; the second component is what the
    handler throws, if it does. *)
Definition handleSubmit `{CaseTable} (stockList : json) (searchTerm : jsstring)
  : list submit_effect * option js_error :=
  match includes stockList (toUpperCase searchTerm) with
  | inl e => ([PreventDefault], Some e)
  | inr true => ([PreventDefault; OnSearch (toUpperCase searchTerm)], None)
  | inr false =>
      ([PreventDefault; Alert (str "Stock not found in the list.")], None)
  end.

(** ** [Dashboard] *)

(** The hook state of [Dashboard]. *)
Record Dashboard := {
  stockData : json;
  stockList : json;
  selectedStock : option jsstring;
  loading : bool;
  error : option jsstring
}.

(** Lines 47 to 51. *)
Definition initial : Dashboard :=
  {| stockData := JNull; stockList := JArr []; selectedStock := None;
     loading := false; error := None |}.

(** [err.message || fallback] *)
Definition message_or (err : js_error) (fallback : jsstring) : jsstring :=
  if string_truthy (message err) then message err else fallback.

(** [loadStockList] up to its [await], and from it on. *)
Definition loadStockList_begin (st : Dashboard) : Dashboard :=
  {| stockData := stockData st; stockList := stockList st;
     selectedStock := selectedStock st; loading := true; error := error st |}.

Definition loadStockList_resume (r : js_error + json) (st : Dashboard) : Dashboard :=
  match r with
  | inr list =>
      {| stockData := stockData st; stockList := list;
         selectedStock := selectedStock st; loading := false;
         error := error st |}
  | inl err =>
      {| stockData := stockData st; stockList := stockList st;
         selectedStock := selectedStock st; loading := false;
         error := Some (message_or err (str "Failed to load stock list.")) |}
  end.

(** [handleSearch] up to its [await], and from it on. *)
Definition handleSearch_begin (symbol : jsstring) (st : Dashboard) : Dashboard :=
  {| stockData := JNull; stockList := stockList st;
     selectedStock := Some symbol; loading := true; error := None |}.

Definition handleSearch_resume (r : js_error + json) (st : Dashboard) : Dashboard :=
  match r with
  | inr data =>
      {| stockData := data; stockList := stockList st;
         selectedStock := selectedStock st; loading := false;
         error := error st |}
  | inl err =>
      {| stockData := stockData st; stockList := stockList st;
         selectedStock := selectedStock st; loading := false;
         error := Some (message_or err (str "Failed to load stock data.")) |}
  end.

(** A whole call, with nothing else happening before the answer. *)
Definition loadStockList (net : jsstring -> fetch_outcome) (st : Dashboard)
  : list effect * Dashboard :=
  let st1 := loadStockList_begin st in
  let (t, r) := run net fetchStockList in
  (t, loadStockList_resume r st1).

Definition handleSearch (net : jsstring -> fetch_outcome) (symbol : jsstring)
    (st : Dashboard) : list effect * Dashboard :=
  let st1 := handleSearch_begin symbol st in
  let (t, r) := run net (fetchStockData symbol) in
  (t, handleSearch_resume r st1).

(** The form is submitted with [searchTerm] in the input: [handleSubmit]
    of [SearchBar], whose [onSearch] is [handleSearch]. *)
Definition submit `{CaseTable} (net : jsstring -> fetch_outcome)
    (searchTerm : jsstring) (st : Dashboard)
  : list submit_effect * option js_error * (list effect * Dashboard) :=
  let (es, thrown) := handleSubmit (stockList st) searchTerm in
  match es with
  | [PreventDefault; OnSearch symbol] => (es, thrown, handleSearch net symbol st)
  | _ => (es, thrown, ([], st))
  end.

(** ** [StockCard] *)

(** [v.k] for a key [k] that no prototype defines: [None] is [undefined];
    reading a property of [null] throws. *)
Definition member (k : jsstring) (v : json) : js_error + option json :=
  match v with
  | JNull => inl (TypeError (str "Cannot read properties of null"))
  | JObj fields => inr (assoc k fields)
  | _ => inr None
  end.

(** The three values that [StockCard] reads from its property [stock]
    ([None] for the property is [undefined]). *)
Definition StockCard (stock : option json)
  : js_error + (option json * option json * option json) :=
  match stock with
  | None => inl (TypeError (str "Cannot read properties of undefined"))
  | Some v =>
      match member (str "symbol") v, member (str "name") v,
            member (str "price") v with
      | inr s, inr n, inr p => inr (s, n, p)
      | inl e, _, _ => inl e
      | _, inl e, _ => inl e
      | _, _, inl e => inl e
      end
  end.

(** Lines 88 to 93, in the render of [Dashboard]: with a truthy [stockData]
    the card is rendered for [stockData.stock]; [None] is no card. *)
Definition render_card (st : Dashboard)
  : option (js_error + (option json * option json * option json)) :=
  if truthy (stockData st) then
    Some match member (str "stock") (stockData st) with
         | inl e => inl e
         | inr stock => StockCard stock
         end
  else None.

End Old.

(** ** Derived forms of the fetcher *)

(** The URL that lines 6 and 7 build. *)
Definition apiUrl `{CaseTable} (ticker period : jsstring) (interval : jsval) : jsstring :=
  API_BASE_URL ++ str "/api/stockdata/" ++ toUpperCase (trim ticker) ++ str "?" ++
  URLSearchParams_toString
    [(str "period", period); (str "interval", ToString interval)].

(** [v.history] where the program reads it, that is for a truthy [v]. *)
Definition history_of (v : json) : option json :=
  match get_history v with
  | inr h => h
  | inl _ => None
  end.

(** [v.history] is an array. *)
Definition has_array_history (v : json) : Prop :=
  exists items, history_of v = Some (JArr items).

(** Lines 11 to 16: what the call gives for each way the fetch settles. *)
Definition result_of (o : fetch_outcome) : js_error + json :=
  match o with
  | Rejected e => inl e
  | Resolved r =>
      if ok r then
        match json_body r with
        | inl e => inl e
        | inr data =>
            if truthy data && Array_isArray (history_of data)
            then inr data else inl FormatError
        end
      else inl (HttpError r)
  end.

(** Lines 11 to 16 as a program, given how the fetch settled. *)
Definition after_fetch (o : fetch_outcome) : prog json :=
  response <- match o with Resolved r => Ret r | Rejected e => Throw e end ;;
  if negb (ok response)
  then Throw (Error (str "API Error (" ++ Number_toString (status response)
                     ++ str "): " ++ statusText response))
  else
    data <- response_json response ;;
    if negb (truthy data)
    then Throw (Error (str "Invalid data format received from API."))
    else
      history <- lift (get_history data) ;;
      if negb (Array_isArray history)
      then Throw (Error (str "Invalid data format received from API."))
      else Ret data.

(** ** Predicates of the proofs *)

(** The first code point of [s], if there is one, is not white space. *)
Definition no_lead (s : jsstring) : Prop :=
  match s with
  | [] => True
  | c :: _ => isWhiteSpace c = false
  end.

(** The calls of [fetchData] that a world can hold: one whose symbol was
    refused, one that waits for the answer of the backend, one that is
    over. *)
Definition known_call (c : call) : Prop :=
  c = Settled (inl ValidationError) \/ c = Waiting after_fetch \/ c = Finished.

(** What holds of every world that the component can be in. *)
Definition invariant (w : World) : Prop :=
  timers w = ∅ /\
  has_array_history (stockData (hooks w)) /\
  Forall known_call (calls w).

(** ** The words of the specification *)

(** The words of the specification: the symbol is put in the path
    "URL-path-escaped". Everything but letters, digits and [- _ . ! ~ * ' ( )]
    is percent-encoded, as [encodeURIComponent] does. *)
Definition spec_path_safe (c : N) : bool :=
  isAlphaNum c || (c =? 0x2D) || (c =? 0x5F) || (c =? 0x2E) || (c =? 0x21) ||
  (c =? 0x7E) || (c =? 0x2A) || (c =? 0x27) || (c =? 0x28) || (c =? 0x29).

Definition spec_path_escape (s : jsstring) : jsstring :=
  flat_map (fun c => if spec_path_safe c then [c]
                     else flat_map percent_byte (utf8_encode c)) s.

(** The request of the specification:
    [GET {baseUrl}/api/stockdata/{SYMBOL}?period={period}&interval={interval}]. *)
Definition spec_request_url `{CaseTable} (s period interval : jsstring) : jsstring :=
  API_BASE_URL ++ str "/api/stockdata/" ++ spec_path_escape (toUpperCase (trim s))
  ++ str "?period=" ++ period ++ str "&interval=" ++ interval.

(** The words of the specification: the current data is cleared. *)
Definition spec_data_cleared (d : json) : Prop :=
  d = JNull \/ d = initial_stockData.

(** ** Sample backends and states *)

(** A backend that answers every request with an empty history. *)
Definition sample_net (u : jsstring) : fetch_outcome :=
  Resolved {| status := 200; statusText := str "OK";
              json_body := inr (JObj [(str "info", JNull); (str "history", JArr [])]) |}.

(** A backend that answers with the body [{history: "not-an-array"}]. *)
Definition malformed_response : Response :=
  {| status := 200; statusText := str "OK";
     json_body := inr (JObj [(str "history", JStr (str "not-an-array"))]) |}.

(** A backend answer with one record of history. *)
Definition loaded_data : json :=
  JObj [(str "info", JObj [(str "symbol", JStr (str "AAPL"))]);
        (str "history",
         JArr [JObj [(str "Date", JStr (str "2025-04-03T15:45:00"));
                     (str "Close", JNum (203 # 1))]])].

Definition loaded_response : Response :=
  {| status := 200; statusText := str "OK"; json_body := inr loaded_data |}.

(** A backend answer with the status 500. *)
Definition error_response : Response :=
  {| status := 500; statusText := str "Internal Server Error";
     json_body := inl (SyntaxError (str "Unexpected token < in JSON")) |}.

(** The component after its first fetch has brought data. *)
Definition loaded_world : World :=
  @run_events ascii_only [Mount; Settle 0 (Resolved loaded_response)] init.

(** The answer of [sample_net]. *)
Definition sample_net_answer : fetch_outcome := sample_net [].

(** ** Tactics *)

(** Decide the comparisons of code points in the goal. *)
Ltac cp_decide :=
  repeat match goal with
  | |- context [N.ltb ?a ?b] =>
      first [ replace (N.ltb a b) with true by (symmetry; apply N.ltb_lt; lia)
            | replace (N.ltb a b) with false by (symmetry; apply N.ltb_ge; lia) ]
  | |- context [N.leb ?a ?b] =>
      first [ replace (N.leb a b) with true by (symmetry; apply N.leb_le; lia)
            | replace (N.leb a b) with false by (symmetry; apply N.leb_gt; lia) ]
  | |- context [N.eqb ?a ?b] =>
      first [ replace (N.eqb a b) with true by (symmetry; apply N.eqb_eq; lia)
            | replace (N.eqb a b) with false by (symmetry; apply N.eqb_neq; lia) ]
  end.

(** Take a world apart into its fields. *)
Ltac open_world w :=
  let h := fresh "h" in
  destruct w as [h ? ? ? ? ? ? ?]; destruct h as [? ? ? ? ? ?].

(** The invariant is kept by a function that touches none of its parts. *)
Ltac frame_invariant w :=
  let Ht := fresh "Ht" in
  let Hd := fresh "Hd" in
  let Hc := fresh "Hc" in
  intros (Ht & Hd & Hc); open_world w;
  unfold invariant, is_mounted in *; cbn in *;
  repeat match goal with
  | |- context [match ?l with Fresh => _ | Mounted => _ | Unmounted => _ end] =>
      destruct l; cbn
  end;
  repeat split; try assumption.

(** ** Predicates of the further properties *)

(** A code point of Unicode. *)
Definition is_code_point (c : N) : Prop := c < 0x110000.

(** What the serializer of [URLSearchParams] can put out: the code points
    it leaves alone, [+] and [%]. *)
Definition query_char (c : N) : bool :=
  form_safe c || (c =? 0x2B) || (c =? 0x25).

(** The component is mounted on the ticker [t], the effect of its last
    render has run, and the arrow function that line 35 handed to the
    setter of [interval] is the one update in the queue. *)
Definition effect_pending (t : jsstring) (w : World) : Prop :=
  lifecycle w = Mounted /\
  ticker (hooks w) = t /\
  pollingTimerRef (hooks w) = RUndefined /\
  queue w = [Updater t (interval (hooks w))] /\
  deps w = (t, interval (hooks w)) /\
  match interval (hooks w) with
  | VPromise p => (p < length (calls w))%nat
  | VStr _ => True
  end.

(** A call of one of the setters that [fetchData] uses. *)
Inductive setter_call :=
| CallSetStockData (d : json)
| CallSetError (e : option jsstring)
| CallSetIsLoading (b : bool).

Definition apply_call (c : setter_call) (w : World) : World :=
  match c with
  | CallSetStockData d => setStockData d w
  | CallSetError e => setError e w
  | CallSetIsLoading b => setIsLoading b w
  end.

(** The setters that [fetchData] calls from its [await] on (lines 24 to
    29), in order, with what it hands to them. *)
Definition fetchData_resume_calls (r : js_error + json) : list setter_call :=
  match r with
  | inr data => [CallSetStockData data; CallSetIsLoading false]
  | inl err => [CallSetError (Some (message err)); CallSetIsLoading false]
  end.

(** The setters that are called when the call [n] goes on. *)
Definition settle_calls (n : nat) (o : fetch_outcome) (w : World)
  : list setter_call :=
  match calls w !! n with
  | Some (Settled r) => fetchData_resume_calls r
  | Some (Waiting k) =>
      match snd (start (k o)) with
      | Settled r => fetchData_resume_calls r
      | _ => []
      end
  | Some Finished | None => []
  end.

(** An arrow function of line 35 is in the queue of [interval]: the next
    render will call it. *)
Definition updater_pending (w : World) : Prop :=
  exists t i, In (Updater t i) (queue w).

(** The reference holds no timer handle. *)
Definition no_handle (r : refval) : Prop := r = RNull \/ r = RUndefined.

(** * Properties *)

(** ** Trimming and casing *)

Lemma trimStart_no_lead s : no_lead (trimStart s).
Proof.
  induction s as [|c s IH]; simpl; [exact I|].
  destruct (isWhiteSpace c) eqn:E; [exact IH | exact E].
Qed.

Lemma trimStart_fixed s : no_lead s -> trimStart s = s.
Proof. destruct s as [|c s]; simpl; [reflexivity|]. now intros ->. Qed.

Lemma trimStart_suffix s : exists p, s = p ++ trimStart s.
Proof.
  induction s as [|c s [p IH]]; simpl.
  - now exists [].
  - destruct (isWhiteSpace c).
    + exists (c :: p). simpl. now f_equal.
    + now exists [].
Qed.

Lemma trimEnd_prefix s : exists q, s = trimEnd s ++ q.
Proof.
  unfold trimEnd. destruct (trimStart_suffix (rev s)) as [p Hp].
  exists (rev p). rewrite <- rev_app_distr, <- Hp. now rewrite rev_involutive.
Qed.

Lemma trimEnd_no_trail s : no_lead (rev (trimEnd s)).
Proof. unfold trimEnd. rewrite rev_involutive. apply trimStart_no_lead. Qed.

Lemma trimEnd_keeps_lead s : no_lead s -> no_lead (trimEnd s).
Proof.
  intros Hs. destruct (trimEnd_prefix s) as [q Hq].
  destruct (trimEnd s) as [|c t]; [exact I|].
  rewrite Hq in Hs. exact Hs.
Qed.

Lemma trim_no_lead s : no_lead (trim s).
Proof. apply trimEnd_keeps_lead, trimStart_no_lead. Qed.

Lemma trim_no_trail s : no_lead (rev (trim s)).
Proof. apply trimEnd_no_trail. Qed.

Lemma trim_fixed s : no_lead s -> no_lead (rev s) -> trim s = s.
Proof.
  intros H1 H2. unfold trim, trimEnd.
  rewrite (trimStart_fixed s H1), (trimStart_fixed _ H2).
  apply rev_involutive.
Qed.

Lemma rev_flat_map {A B} (f : A -> list B) (l : list A) :
  rev (flat_map f l) = flat_map (fun x => rev (f x)) (rev l).
Proof.
  induction l as [|a l IH]; simpl; [reflexivity|].
  rewrite rev_app_distr, IH, flat_map_app. simpl.
  now rewrite app_nil_r.
Qed.

Lemma flat_map_no_lead (g : N -> list N) (s : jsstring) :
  (forall c, g c <> []) ->
  (forall c d, isWhiteSpace c = false -> In d (g c) -> isWhiteSpace d = false) ->
  no_lead s -> no_lead (flat_map g s).
Proof.
  intros Hne Hws. destruct s as [|c s]; simpl; [trivial|].
  intros Hc. specialize (Hne c). specialize (Hws c).
  destruct (g c) as [|d r]; [congruence|].
  simpl. apply Hws; [exact Hc | now left].
Qed.

Lemma flat_map_fixed (g : N -> list N) (s : jsstring) :
  (forall d, In d s -> g d = [d]) -> flat_map g s = s.
Proof.
  induction s as [|c s IH]; simpl; intros Hs; [reflexivity|].
  rewrite (Hs c) by now left. simpl. f_equal.
  apply IH. intros d Hd. apply Hs. now right.
Qed.

Section Casing.
Context {T : CaseTable} {L : CaseTableLaws}.

Lemma toUpperCase_idempotent s : toUpperCase (toUpperCase s) = toUpperCase s.
Proof.
  unfold toUpperCase. induction s as [|c s IH]; simpl; [reflexivity|].
  rewrite flat_map_app, IH. f_equal.
  apply flat_map_fixed. intros d Hd. exact (upper_fixed c d Hd).
Qed.

Lemma toUpperCase_no_lead s : no_lead s -> no_lead (toUpperCase s).
Proof.
  apply flat_map_no_lead; [exact upper_nonempty | exact upper_no_space].
Qed.

Lemma toUpperCase_no_trail s : no_lead (rev s) -> no_lead (rev (toUpperCase s)).
Proof.
  unfold toUpperCase. rewrite rev_flat_map. apply flat_map_no_lead.
  - intros c Hc. apply (upper_nonempty c).
    rewrite <- (rev_involutive (toUppercase_cp c)), Hc. reflexivity.
  - intros c d Hc Hd. apply (upper_no_space c d Hc).
    now apply in_rev.
Qed.

Lemma toUpperCase_nil_inv s : toUpperCase s = [] -> s = [].
Proof.
  destruct s as [|c s]; [reflexivity|]. unfold toUpperCase. simpl.
  intros E. apply app_eq_nil in E. destruct E as [E _].
  now apply upper_nonempty in E.
Qed.

(** C8. Normalising a symbol twice is the same as normalising it once:
    [normalize (normalize s) = normalize s] for every string [s], where
    [normalize s] is [s.trim().toUpperCase()] as line 4 of
    [stockApi.js] computes it. *)
Theorem normalize_idempotent (s : jsstring) :
  normalize (normalize s) = normalize s.
Proof.
  unfold normalize.
  rewrite (trim_fixed (toUpperCase (trim s))).
  - apply toUpperCase_idempotent.
  - apply toUpperCase_no_lead, trim_no_lead.
  - apply toUpperCase_no_trail, trim_no_trail.
Qed.
End Casing.

Lemma ascii_letter_upper (c d : N) :
  0x61 <= c <= 0x7A -> d = c - 0x20 -> isWhiteSpace d = false.
Proof. intros Hc ->. unfold isWhiteSpace. cp_decide. reflexivity. Qed.

Lemma ascii_only_laws : @CaseTableLaws ascii_only.
Proof.
  split.
  - intros c. unfold toUppercase_cp. simpl.
    destruct (c <? 0x80); [destruct ((0x61 <=? c) && (c <=? 0x7A))|]; discriminate.
  - intros c d. unfold toUppercase_cp at 1. simpl.
    destruct (N.ltb_spec c 0x80) as [Hc|Hc].
    + destruct (N.leb_spec 0x61 c) as [H1|H1]; simpl;
        [destruct (N.leb_spec c 0x7A) as [H2|H2]; simpl|];
        intros [<-|[]]; unfold toUppercase_cp; cbn [unicode_upper ascii_only];
        cp_decide; reflexivity.
    + intros [<-|[]]. unfold toUppercase_cp. cbn [unicode_upper ascii_only].
      cp_decide. reflexivity.
  - intros c d Hws. unfold toUppercase_cp. simpl.
    destruct (N.ltb_spec c 0x80) as [Hc|Hc].
    + destruct (N.leb_spec 0x61 c) as [H1|H1]; simpl;
        [destruct (N.leb_spec c 0x7A) as [H2|H2]; simpl|];
        intros [<-|[]]; try exact Hws.
      apply (ascii_letter_upper c); [lia | reflexivity].
    + intros [<-|[]]. exact Hws.
Qed.

Lemma normalize_idempotent_witness :
  @normalize ascii_only (@normalize ascii_only (str "  aapl "))
  = @normalize ascii_only (str "  aapl ").
Proof. exact (@normalize_idempotent ascii_only ascii_only_laws (str "  aapl ")). Defined.

(** ** The data fetcher *)

Lemma after_fetch_pure o :
  after_fetch o = match result_of o with inl e => Throw e | inr d => Ret d end.
Proof.
  unfold after_fetch.
  destruct o as [r|e]; cbn [bind result_of]; [|reflexivity].
  destruct (ok r); cbn [negb]; [|reflexivity].
  unfold response_json. destruct (json_body r) as [e|d]; cbn [bind]; [reflexivity|].
  unfold history_of.
  destruct d as [|b|q|s|items|fields];
    cbn [truthy negb andb get_history lift bind Array_isArray].
  - reflexivity.
  - destruct b; reflexivity.
  - destruct (Qeq_bool q 0); reflexivity.
  - destruct (string_truthy s); reflexivity.
  - reflexivity.
  - destruct (Array_isArray (assoc (str "history") fields)); reflexivity.
Qed.

Section Fetcher.
Context {T : CaseTable}.

Lemma fetchStockDataApi_empty s p i :
  toUpperCase (trim s) = [] -> fetchStockDataApi s p i = Throw ValidationError.
Proof. intros E. unfold fetchStockDataApi. rewrite E. reflexivity. Qed.

Lemma fetchStockDataApi_nonempty s p i :
  toUpperCase (trim s) <> [] ->
  fetchStockDataApi s p i
  = ConsoleLog (str "Fetching data from: " ++ apiUrl s p i)
      (AwaitFetch (apiUrl s p i) after_fetch).
Proof.
  intros Hne. unfold fetchStockDataApi, apiUrl.
  destruct (toUpperCase (trim s)) as [|c u] eqn:E; [congruence|].
  reflexivity.
Qed.

Lemma run_fetchStockDataApi net s p i :
  toUpperCase (trim s) <> [] ->
  run net (fetchStockDataApi s p i)
  = ([Logged (str "Fetching data from: " ++ apiUrl s p i); Get (apiUrl s p i)],
     result_of (net (apiUrl s p i))).
Proof.
  intros Hne. rewrite (fetchStockDataApi_nonempty s p i Hne).
  cbn [run]. rewrite after_fetch_pure.
  destruct (result_of (net (apiUrl s p i))); reflexivity.
Qed.

Lemma start_fetchStockDataApi s p i :
  toUpperCase (trim s) <> [] ->
  start (fetchStockDataApi s p i)
  = ([Logged (str "Fetching data from: " ++ apiUrl s p i); Get (apiUrl s p i)],
     Waiting after_fetch).
Proof.
  intros Hne. rewrite (fetchStockDataApi_nonempty s p i Hne). reflexivity.
Qed.

Lemma start_after_fetch o : start (after_fetch o) = ([], Settled (result_of o)).
Proof. rewrite after_fetch_pure. destruct (result_of o); reflexivity. Qed.
End Fetcher.

Lemma form_encode_safe (s : jsstring) :
  forallb form_safe s = true -> form_encode s = s.
Proof.
  intros Hs. apply flat_map_fixed. intros d Hd.
  rewrite forallb_forall in Hs. unfold form_encode_cp.
  now rewrite (Hs d Hd).
Qed.

(** C1. The lookback period that the controller derives from an interval
    string is "5d" for "1m", "5m" and "15m" and "1y" for every other
    string; it depends on nothing but the interval: whatever the ticker and
    the state, [fetchData] calls the fetcher with that period. *)
Theorem period_for_spec (i : jsstring) :
  (i = str "1m" \/ i = str "5m" \/ i = str "15m" ->
   period_for (VStr i) = str "5d") /\
  (i <> str "1m" -> i <> str "5m" -> i <> str "15m" ->
   period_for (VStr i) = str "1y") /\
  (forall (T : CaseTable) (t : jsstring) (w : World),
     fetchData t (VStr i) w =
     let (tr, c) := start (fetchStockDataApi t (period_for (VStr i)) (VStr i)) in
     record_call tr c (setError None (setIsLoading true w))).
Proof.
  split; [|split].
  - intros [-> | [-> | ->]]; vm_compute; reflexivity.
  - intros H1 H2 H3. unfold period_for, Array_includes.
    cbn [existsb sameValue]. unfold jsstring_eqb.
    rewrite !bool_decide_eq_false_2 by congruence. reflexivity.
  - intros T t w. reflexivity.
Qed.

Lemma period_for_spec_witness :
  period_for (VStr (str "5m")) = str "5d" /\
  period_for (VStr (str "1d")) = str "1y".
Proof.
  split.
  - apply (proj1 (period_for_spec (str "5m"))). right. left. reflexivity.
  - apply (proj1 (proj2 (period_for_spec (str "1d")))); vm_compute; discriminate.
Defined.

(** C5. A symbol that is empty once trimmed makes [fetchStockDataApi] fail
    with the validation error before anything else happens: the program is
    the bare [throw], running it against any network logs nothing and
    requests nothing, and the controller records a call that has already
    failed without adding an effect. *)
Theorem empty_symbol_rejected {T : CaseTable} (s p : jsstring) (i : jsval) :
  trim s = [] ->
  fetchStockDataApi s p i = Throw ValidationError /\
  (forall net, run net (fetchStockDataApi s p i) = ([], inl ValidationError)) /\
  start (fetchStockDataApi s p i) = ([], Settled (inl ValidationError)).
Proof.
  intros E.
  assert (F : fetchStockDataApi s p i = Throw ValidationError).
  { apply fetchStockDataApi_empty. now rewrite E. }
  rewrite F. repeat split.
Qed.

Lemma empty_symbol_rejected_witness :
  trim (str "   ") = [] /\
  forall net,
    run net (@fetchStockDataApi ascii_only (str "   ") (str "5d") (VStr (str "15m")))
    = ([], inl ValidationError).
Proof.
  assert (E : trim (str "   ") = []) by (vm_compute; reflexivity).
  split; [exact E|].
  exact (proj1 (proj2 (@empty_symbol_rejected ascii_only (str "   ") (str "5d")
                         (VStr (str "15m")) E))).
Defined.

(** C4, as the specification has it, fails twice: a symbol of blanks is not
    empty and yet no request is made for it, and the symbol is put in the
    path as it is, so that "a/b" is requested as [A/B] and not as [A%2FB]. *)
Lemma request_url_counterexample :
  (str " " <> [] /\
   requests_of (fst (run sample_net
     (@fetchStockDataApi ascii_only (str " ") (str "5d") (VStr (str "15m"))))) = [])
  /\
  (requests_of (fst (run sample_net
     (@fetchStockDataApi ascii_only (str "a/b") (str "5d") (VStr (str "15m")))))
   = [str "http://localhost:5000/api/stockdata/A/B?period=5d&interval=15m"] /\
   @spec_request_url ascii_only (str "a/b") (str "5d") (str "15m")
   = str "http://localhost:5000/api/stockdata/A%2FB?period=5d&interval=15m" /\
   requests_of (fst (run sample_net
     (@fetchStockDataApi ascii_only (str "a/b") (str "5d") (VStr (str "15m")))))
   <> [@spec_request_url ascii_only (str "a/b") (str "5d") (str "15m")]).
Proof.
  repeat split; try (vm_compute; reflexivity); vm_compute; discriminate.
Qed.

(** C4, amended. For every symbol whose trimmed, upper-cased form is not
    empty, [fetchStockDataApi] hands exactly one URL to [fetch]:
    the base URL, [/api/stockdata/], the trimmed and upper-cased symbol as
    it is, and the query [period=..&interval=..] in which period and
    interval are form-encoded, hence unchanged when they are made of
    letters, digits and [* - . _]. For "aapl" and the interval "15m" the
    controller's request is for [AAPL] with the period "5d". *)
Theorem fetch_issues_one_request {T : CaseTable}
    (s p : jsstring) (i : jsval) (net : jsstring -> fetch_outcome) :
  normalize s <> [] ->
  requests_of (fst (run net (fetchStockDataApi s p i)))
  = [API_BASE_URL ++ str "/api/stockdata/" ++ normalize s ++ str "?period="
     ++ form_encode p ++ str "&interval=" ++ form_encode (ToString i)]
  /\ (forallb form_safe p = true -> forallb form_safe (ToString i) = true ->
      requests_of (fst (run net (fetchStockDataApi s p i)))
      = [API_BASE_URL ++ str "/api/stockdata/" ++ normalize s ++ str "?period="
         ++ p ++ str "&interval=" ++ ToString i])
  /\ requests_of (fst (run net
       (fetchStockDataApi (str "aapl") (period_for (VStr (str "15m")))
          (VStr (str "15m")))))
     = [str "http://localhost:5000/api/stockdata/AAPL?period=5d&interval=15m"].
Proof.
  intros Hne.
  assert (U : forall q j,
    apiUrl s q j
    = API_BASE_URL ++ str "/api/stockdata/" ++ normalize s ++ str "?period="
      ++ form_encode q ++ str "&interval=" ++ form_encode (ToString j)).
  { intros q j. unfold apiUrl, normalize. do 2 f_equal. }
  split; [|split].
  - rewrite (run_fetchStockDataApi net s p i Hne). cbn [fst requests_of flat_map].
    rewrite U. reflexivity.
  - intros Hp Hi. rewrite (run_fetchStockDataApi net s p i Hne).
    cbn [fst requests_of flat_map]. rewrite U.
    now rewrite (form_encode_safe p Hp), (form_encode_safe _ Hi).
  - rewrite run_fetchStockDataApi by (vm_compute; discriminate).
    cbn [fst requests_of flat_map]. vm_compute. reflexivity.
Qed.

Lemma fetch_issues_one_request_witness :
  @normalize ascii_only (str " msft") <> [] /\
  requests_of (fst (run sample_net
    (@fetchStockDataApi ascii_only (str " msft") (str "1y") (VStr (str "1d")))))
  = [str "http://localhost:5000/api/stockdata/MSFT?period=1y&interval=1d"].
Proof.
  assert (Hne : @normalize ascii_only (str " msft") <> [])
    by (vm_compute; discriminate).
  split; [exact Hne|].
  exact (proj1 (@fetch_issues_one_request ascii_only (str " msft") (str "1y")
                  (VStr (str "1d")) sample_net Hne)).
Defined.

(** ** What the fetcher returns *)

Lemma validated_has_array_history d :
  truthy d && Array_isArray (history_of d) = true -> has_array_history d.
Proof.
  intros H. apply andb_true_iff in H. destruct H as [_ H].
  unfold has_array_history. destruct (history_of d) as [[| | | |items|]|];
    try discriminate. now exists items.
Qed.

Lemma result_of_has_array_history o d :
  result_of o = inr d -> has_array_history d.
Proof.
  destruct o as [r|e]; cbn [result_of]; [|discriminate].
  destruct (ok r); [|discriminate].
  destruct (json_body r) as [e|d']; [discriminate|].
  destruct (truthy d' && Array_isArray (history_of d')) eqn:E; [|discriminate].
  intros [= <-]. now apply validated_has_array_history.
Qed.

(** C6. When the backend answers with a success status and a body that
    parses to [d], the call fails with the format error exactly when [d] is
    missing (falsy) or its [history] is not an array, and returns [d]
    exactly when [d] is there with an array for [history]. The body
    [{history: "not-an-array"}] gives the format error, as a value and not
    as a crash. Whatever the network does, a value that the call returns
    has an array for [history]. *)
Theorem format_validation {T : CaseTable}
    (net : jsstring -> fetch_outcome) (s p : jsstring) (i : jsval)
    (r : Response) (d : json) :
  normalize s <> [] ->
  net (apiUrl s p i) = Resolved r -> ok r = true -> json_body r = inr d ->
  (snd (run net (fetchStockDataApi s p i)) = inl FormatError <->
   truthy d = false \/ Array_isArray (history_of d) = false) /\
  (snd (run net (fetchStockDataApi s p i)) = inr d <->
   truthy d = true /\ has_array_history d) /\
  (d = JObj [(str "history", JStr (str "not-an-array"))] ->
   snd (run net (fetchStockDataApi s p i)) = inl FormatError) /\
  (forall net' s' p' i' v,
     snd (run net' (fetchStockDataApi s' p' i')) = inr v -> has_array_history v).
Proof.
  intros Hne Hnet Hok Hbody.
  assert (R : snd (run net (fetchStockDataApi s p i))
              = if truthy d && Array_isArray (history_of d)
                then inr d else inl FormatError).
  { rewrite (run_fetchStockDataApi net s p i Hne). cbn [snd].
    rewrite Hnet. cbn [result_of]. now rewrite Hok, Hbody. }
  split; [|split; [|split]].
  - rewrite R. destruct (truthy d); cbn [andb].
    + destruct (Array_isArray (history_of d)); split;
        try discriminate; try (intros [?|?]; discriminate); auto.
    + split; auto.
  - rewrite R. destruct (truthy d && Array_isArray (history_of d)) eqn:E.
    + split; [intros _|reflexivity]. split.
      * now apply andb_true_iff in E.
      * now apply validated_has_array_history.
    + split; [discriminate|]. intros [Ht [items Hh]].
      rewrite Ht, Hh in E. discriminate.
  - intros ->. rewrite R. reflexivity.
  - intros net' s' p' i' v.
    destruct (toUpperCase (trim s')) as [|c u] eqn:E.
    + rewrite (fetchStockDataApi_empty s' p' i' E). discriminate.
    + rewrite run_fetchStockDataApi by (rewrite E; discriminate).
      cbn [snd]. apply result_of_has_array_history.
Qed.

Lemma format_validation_witness :
  snd (run (fun _ => Resolved malformed_response)
         (@fetchStockDataApi ascii_only (str "aapl") (str "5d") (VStr (str "15m"))))
  = inl FormatError.
Proof.
  refine (proj1 (proj2 (proj2
    (@format_validation ascii_only (fun _ => Resolved malformed_response)
       (str "aapl") (str "5d") (VStr (str "15m")) malformed_response
       (JObj [(str "history", JStr (str "not-an-array"))]) _ _ _ _))) _).
  - vm_compute. discriminate.
  - reflexivity.
  - reflexivity.
  - reflexivity.
  - reflexivity.
Defined.

(** ** The controller *)

Section Controller.
Context {T : CaseTable}.

Lemma start_fetchStockDataApi_known t p i :
  known_call (snd (start (fetchStockDataApi t p i))).
Proof.
  destruct (toUpperCase (trim t)) as [|c u] eqn:E.
  - rewrite (fetchStockDataApi_empty t p i E). now left.
  - rewrite start_fetchStockDataApi by (rewrite E; discriminate).
    right. now left.
Qed.

(** What [fetchData] changes up to its [await], and what it leaves. *)
Lemma fetchData_frame t i w :
  let st := start (fetchStockDataApi t (period_for i) i) in
  let w' := snd (fetchData t i w) in
  fst (fetchData t i w) = length (calls w) /\
  calls w' = calls w ++ [snd st] /\
  effects w' = effects w ++ fst st /\
  timers w' = timers w /\ lifecycle w' = lifecycle w /\
  queue w' = queue w /\ deps w' = deps w /\ next_timer w' = next_timer w /\
  ticker (hooks w') = ticker (hooks w) /\
  interval (hooks w') = interval (hooks w) /\
  stockData (hooks w') = stockData (hooks w) /\
  pollingTimerRef (hooks w') = pollingTimerRef (hooks w) /\
  (lifecycle w = Mounted ->
   isLoading (hooks w') = true /\ error (hooks w') = None).
Proof.
  unfold fetchData.
  destruct (start (fetchStockDataApi t (period_for i) i)) as [tr c].
  open_world w. unfold setIsLoading, setError, is_mounted, record_call.
  destruct lifecycle0; cbn; repeat split; intros; discriminate.
Qed.

Lemma fetchData_invariant t i w :
  invariant w -> invariant (snd (fetchData t i w)).
Proof.
  intros (Ht & Hd & Hc).
  destruct (fetchData_frame t i w)
    as (_ & Ec & _ & Et & _ & _ & _ & _ & _ & _ & Ed & _).
  unfold invariant. rewrite Ec, Et, Ed. repeat split; try assumption.
  apply Forall_app. split; [exact Hc|]. constructor; [|constructor].
  apply start_fetchStockDataApi_known.
Qed.

(** The rest of [fetchData]: a failure leaves the data, a success
    replaces it. *)
Lemma fetchData_resume_stockData r w :
  stockData (hooks (fetchData_resume r w))
  = match r with
    | inr d => if is_mounted w then d else stockData (hooks w)
    | inl _ => stockData (hooks w)
    end.
Proof.
  open_world w.
  unfold fetchData_resume, setStockData, setError, setIsLoading, is_mounted.
  destruct r as [e|d]; destruct lifecycle0; reflexivity.
Qed.

Lemma fetchData_resume_invariant r w :
  (forall d, r = inr d -> has_array_history d) ->
  invariant w -> invariant (fetchData_resume r w).
Proof.
  intros Hr (Ht & Hd & Hc). unfold invariant.
  rewrite fetchData_resume_stockData.
  assert (E : timers (fetchData_resume r w) = timers w
              /\ calls (fetchData_resume r w) = calls w).
  { open_world w.
    unfold fetchData_resume, setStockData, setError, setIsLoading, is_mounted.
    destruct r as [e|d]; destruct lifecycle0; split; reflexivity. }
  destruct E as [-> ->]. repeat split; try assumption.
  destruct r as [e|d]; [exact Hd|].
  destruct (is_mounted w); [now apply Hr | exact Hd].
Qed.

Lemma update_call_invariant n t c w :
  known_call c -> invariant w -> invariant (update_call n t c w).
Proof.
  intros Hv (Ht & Hd & Hc). unfold invariant, update_call. cbn.
  repeat split; try assumption. now apply Forall_insert.
Qed.

(** How a call goes on, for each of the calls that a world can hold. *)
Lemma settle_known n o w :
  Forall known_call (calls w) ->
  settle n o w = w \/
  (calls w !! n = Some (Settled (inl ValidationError)) /\
   settle n o w
   = fetchData_resume (inl ValidationError) (update_call n [] Finished w)) \/
  (calls w !! n = Some (Waiting after_fetch) /\
   settle n o w
   = fetchData_resume (result_of o) (update_call n [] Finished w)).
Proof.
  intros Hc. unfold settle.
  destruct (calls w !! n) as [c|] eqn:E; [|now left].
  rewrite Forall_forall in Hc.
  destruct (Hc c (list_elem_of_lookup_2 _ _ _ E)) as [-> | [-> | ->]].
  - right. left. split; reflexivity.
  - right. right. split; [reflexivity|].
    rewrite start_after_fetch. reflexivity.
  - now left.
Qed.

Lemma settle_invariant n o w : invariant w -> invariant (settle n o w).
Proof.
  intros Hw.
  destruct (settle_known n o w (proj2 (proj2 Hw)))
    as [-> | [[_ ->] | [_ ->]]]; [exact Hw| |].
  - apply fetchData_resume_invariant; [discriminate|].
    apply update_call_invariant; [|exact Hw]. right. now right.
  - apply fetchData_resume_invariant;
      [intros d; apply result_of_has_array_history|].
    apply update_call_invariant; [|exact Hw]. right. now right.
Qed.
End Controller.

(** The timer function of the window arms a timer; line 35 does not reach
    it. *)
Lemma window_setInterval_arms t i ms w :
  timers w = ∅ ->
  pollingTimerRef
    (hooks (set_ref (fst (window_setInterval t i ms w))
              (snd (window_setInterval t i ms w))))
  = RTimer (next_timer w) /\
  size (timers (snd (window_setInterval t i ms w))) = 1%nat.
Proof.
  intros Ht. split; [reflexivity|]. cbn [window_setInterval snd timers].
  rewrite Ht, insert_empty. apply map_size_singleton.
Qed.

Lemma clearInterval_invariant r w : invariant w -> invariant (clearInterval r w).
Proof.
  unfold clearInterval. destruct r as [| |id]; [trivial|trivial|].
  frame_invariant w. rewrite Ht. apply delete_empty.
Qed.

Lemma setInterval_invariant a w : invariant w -> invariant (snd (setInterval a w)).
Proof. unfold setInterval. frame_invariant w. Qed.

Lemma set_ref_invariant r w : invariant w -> invariant (set_ref r w).
Proof. unfold set_ref. frame_invariant w. Qed.

Lemma store_interval_invariant v w : invariant w -> invariant (store_interval v w).
Proof. unfold store_interval. frame_invariant w. Qed.

Lemma setTicker_invariant v w : invariant w -> invariant (setTicker v w).
Proof. unfold setTicker. frame_invariant w. Qed.

Lemma set_deps_invariant d w : invariant w -> invariant (set_deps d w).
Proof. unfold set_deps. frame_invariant w. Qed.

Lemma set_queue_invariant q w : invariant w -> invariant (set_queue q w).
Proof. unfold set_queue. frame_invariant w. Qed.

Lemma set_lifecycle_invariant p w : invariant w -> invariant (set_lifecycle p w).
Proof. unfold set_lifecycle. frame_invariant w. Qed.

Lemma effect_cleanup_invariant w : invariant w -> invariant (effect_cleanup w).
Proof. apply clearInterval_invariant. Qed.

Section Steps.
Context {T : CaseTable}.

Lemma effect_body_invariant t i w :
  invariant w -> invariant (effect_body t i w).
Proof.
  intros Hw. unfold effect_body.
  pose proof (fetchData_invariant t i w Hw) as H1.
  destruct (fetchData t i w) as [n w1]. cbn [snd] in H1.
  assert (H2 : invariant
    (if ref_truthy (pollingTimerRef (hooks w1))
     then clearInterval (pollingTimerRef (hooks w1)) w1 else w1)).
  { destruct (ref_truthy _); [now apply clearInterval_invariant | exact H1]. }
  revert H2. generalize (if ref_truthy (pollingTimerRef (hooks w1))
     then clearInterval (pollingTimerRef (hooks w1)) w1 else w1).
  intros w2 H2.
  pose proof (setInterval_invariant (Updater t i) w2 H2) as H3.
  destruct (setInterval (Updater t i) w2) as [r w3]. cbn [snd] in H3.
  now apply set_ref_invariant.
Qed.

Lemma flush_invariant q w : invariant w -> invariant (flush q w).
Proof.
  revert w. induction q as [|[v|t i] q IH]; intros w Hw; cbn [flush].
  - exact Hw.
  - apply IH. now apply store_interval_invariant.
  - pose proof (fetchData_invariant t i w Hw) as H1.
    destruct (fetchData t i w) as [p w1]. cbn [snd] in H1.
    apply IH. now apply store_interval_invariant.
Qed.

Lemma render_invariant w : invariant w -> invariant (render w).
Proof.
  intros Hw. unfold render.
  assert (H1 : invariant (flush (queue w) (set_queue [] w))).
  { apply flush_invariant. now apply set_queue_invariant. }
  revert H1. generalize (flush (queue w) (set_queue [] w)). intros w1 H1.
  destruct (deps_changed _ _); [|exact H1].
  apply set_deps_invariant, effect_body_invariant.
  now apply effect_cleanup_invariant.
Qed.

Lemma step_invariant e w : invariant w -> invariant (step e w).
Proof.
  intros Hw. destruct e as [| |v|v|n o|id|]; cbn [step].
  - destruct (lifecycle w); try exact Hw.
    apply set_deps_invariant, effect_body_invariant.
    now apply set_lifecycle_invariant.
  - destruct (is_mounted w); [now apply render_invariant | exact Hw].
  - destruct (is_mounted w); [|exact Hw].
    now apply render_invariant, setTicker_invariant.
  - destruct (is_mounted w); [|exact Hw].
    now apply render_invariant, setInterval_invariant.
  - now apply settle_invariant.
  - destruct (timers w !! id); [|exact Hw]. now apply fetchData_invariant.
  - destruct (is_mounted w); [|exact Hw].
    now apply set_lifecycle_invariant, set_queue_invariant,
      effect_cleanup_invariant.
Qed.

Lemma init_invariant : invariant init.
Proof.
  repeat split.
  - now exists [].
  - constructor.
Qed.

Lemma reachable_invariant w : reachable w -> invariant w.
Proof.
  induction 1 as [|e w _ IH]; [exact init_invariant|].
  now apply step_invariant.
Qed.

(** No timer of the window is ever armed: line 35 calls the setter of
    the [interval] state. *)
Lemma reachable_no_timer w : reachable w -> timers w = ∅.
Proof. intros Hw. exact (proj1 (reachable_invariant w Hw)). Qed.
End Steps.

(** ** The statements about the controller *)

Lemma start_not_finished p : snd (start p) <> Finished.
Proof.
  induction p as [d|e|m k IH|u k IH]; cbn [start]; try discriminate.
  destruct (start k) as [t c]. exact IH.
Qed.

Lemma contains_middle (a b c : jsstring) : contains (a ++ b ++ c) b.
Proof. now exists a, c. Qed.

Lemma contains_end (a b : jsstring) : contains (a ++ b) b.
Proof. exists a, []. now rewrite app_nil_r. Qed.

Lemma HttpError_message r :
  contains (message (HttpError r)) (Number_toString (status r)) /\
  contains (message (HttpError r)) (statusText r).
Proof.
  unfold HttpError. cbn [message]. split.
  - apply contains_middle.
  - rewrite !app_assoc. apply contains_end.
Qed.

Section Claims.
Context {T : CaseTable}.

Lemma reachable_run_events es w : reachable w -> reachable (run_events es w).
Proof.
  revert w. induction es as [|e es IH]; intros w Hw; [exact Hw|].
  apply IH. now constructor.
Qed.

(** What the effect of lines 32 to 37 leaves in the hook state. *)
Lemma effect_body_hooks t i w :
  let w1 := snd (fetchData t i w) in
  let w' := effect_body t i w in
  ticker (hooks w') = ticker (hooks w1) /\
  interval (hooks w') = interval (hooks w1) /\
  stockData (hooks w') = stockData (hooks w1) /\
  isLoading (hooks w') = isLoading (hooks w1) /\
  error (hooks w') = error (hooks w1) /\
  pollingTimerRef (hooks w') = RUndefined.
Proof.
  unfold effect_body. destruct (fetchData t i w) as [n w1]. cbn [snd].
  open_world w1. unfold setInterval, set_ref, is_mounted, clearInterval.
  destruct pollingTimerRef0; destruct lifecycle0; cbn; repeat split.
Qed.

(** The effect starts a fetch: the state it leaves when mounted. *)
Lemma effect_body_state t i w :
  lifecycle w = Mounted ->
  isLoading (hooks (effect_body t i w)) = true /\
  error (hooks (effect_body t i w)) = None /\
  stockData (hooks (effect_body t i w)) = stockData (hooks w).
Proof.
  intros Hm.
  destruct (fetchData_frame t i w)
    as (_ & _ & _ & _ & _ & _ & _ & _ & _ & _ & Ed & _ & Hl).
  destruct (Hl Hm) as [Hload Herr].
  destruct (effect_body_hooks t i w) as (_ & _ & Ed' & El' & Ee' & _).
  rewrite Ed', El', Ee'. repeat split; assumption.
Qed.

(** Working off the queue changes neither the life cycle, nor the
    dependencies of the last effect, nor the ticker, nor the data. *)
Lemma flush_frame q w :
  lifecycle (flush q w) = lifecycle w /\
  deps (flush q w) = deps w /\
  ticker (hooks (flush q w)) = ticker (hooks w) /\
  stockData (hooks (flush q w)) = stockData (hooks w).
Proof.
  revert w. induction q as [|[v|t i] q IH]; intros w; cbn [flush].
  - repeat split.
  - destruct (IH (store_interval v w)) as (-> & -> & -> & ->). repeat split.
  - destruct (fetchData_frame t i w)
      as (_ & _ & _ & _ & El & _ & Edp & _ & Et & _ & Ed & _).
    destruct (fetchData t i w) as [p w1]. cbn [snd] in *.
    destruct (IH (store_interval (VPromise p) w1)) as (-> & -> & -> & ->).
    cbn. rewrite El, Edp, Et, Ed. repeat split.
Qed.

Lemma flush_app q1 q2 w : flush (q1 ++ q2) w = flush q2 (flush q1 w).
Proof.
  revert w. induction q1 as [|[v|t i] q1 IH]; intros w; cbn [flush app].
  - reflexivity.
  - apply IH.
  - destruct (fetchData t i w) as [p w1]. apply IH.
Qed.

(** A render in which the dependencies have changed ends with the effect,
    hence with a fetch under way. *)
Lemma render_effect_state w :
  lifecycle w = Mounted ->
  (let w1 := flush (queue w) (set_queue [] w) in
   deps_changed (deps w) (ticker (hooks w1), interval (hooks w1)) = true) ->
  isLoading (hooks (render w)) = true /\
  error (hooks (render w)) = None /\
  stockData (hooks (render w)) = stockData (hooks w).
Proof.
  cbv zeta. intros Hm Hch. unfold render.
  destruct (flush_frame (queue w) (set_queue [] w)) as (El & Edp & _ & Ed).
  revert El Edp Ed Hch. generalize (flush (queue w) (set_queue [] w)).
  intros w1 El Edp Ed Hch. cbn [fst snd].
  change (deps (set_queue [] w)) with (deps w) in Edp. rewrite Edp, Hch.
  change (hooks (set_deps ?d ?x)) with (hooks x).
  assert (Hm1 : lifecycle (effect_cleanup w1) = Mounted).
  { unfold effect_cleanup, clearInterval.
    destruct (pollingTimerRef (hooks w1)); cbn; rewrite El; exact Hm. }
  destruct (effect_body_state (ticker (hooks w1)) (interval (hooks w1))
              (effect_cleanup w1) Hm1) as (-> & -> & ->).
  repeat split.
  change (stockData (hooks (set_queue [] w))) with (stockData (hooks w)) in Ed.
  rewrite <- Ed. unfold effect_cleanup, clearInterval.
  destruct (pollingTimerRef (hooks w1)); reflexivity.
Qed.

(** C2, amended. At the start of every call of [fetchData], the one
    place where the controller issues a fetch, the error is cleared and
    [isLoading] is set, and this is the state while the call is still
    under way; the current data is left as it is. So it is after the
    effect of lines 32 to 37, and after every change of the ticker or of
    the interval, which runs that effect. *)
Theorem fetch_start_state (t : jsstring) (i : jsval) (w : World) :
  lifecycle w = Mounted ->
  let n := fst (fetchData t i w) in
  let w' := snd (fetchData t i w) in
  (isLoading (hooks w') = true /\ error (hooks w') = None /\
   stockData (hooks w') = stockData (hooks w) /\
   exists c, calls w' !! n = Some c /\ c <> Finished) /\
  (isLoading (hooks (effect_body t i w)) = true /\
   error (hooks (effect_body t i w)) = None /\
   stockData (hooks (effect_body t i w)) = stockData (hooks w)) /\
  (forall v, fst (deps w) <> v ->
     let w2 := step (ChangeTicker v) w in
     isLoading (hooks w2) = true /\ error (hooks w2) = None /\
     stockData (hooks w2) = stockData (hooks w)) /\
  (forall v, snd (deps w) <> VStr v ->
     let w2 := step (SelectInterval v) w in
     isLoading (hooks w2) = true /\ error (hooks w2) = None /\
     stockData (hooks w2) = stockData (hooks w)).
Proof.
  intros Hm. cbv zeta.
  destruct (fetchData_frame t i w)
    as (En & Ec & _ & _ & _ & _ & _ & _ & _ & _ & Ed & _ & Hl).
  destruct (Hl Hm) as [Hload Herr].
  assert (Hmb : is_mounted w = true) by (unfold is_mounted; now rewrite Hm).
  split; [|split; [|split]].
  - repeat split; try assumption.
    exists (snd (start (fetchStockDataApi t (period_for i) i))). split.
    + rewrite En, Ec. now apply list_lookup_middle.
    + apply start_not_finished.
  - now apply effect_body_state.
  - intros v Hv. cbn [step]. rewrite Hmb.
    assert (Hs : lifecycle (setTicker v w) = Mounted
                 /\ deps (setTicker v w) = deps w
                 /\ ticker (hooks (setTicker v w)) = v
                 /\ stockData (hooks (setTicker v w)) = stockData (hooks w)).
    { unfold setTicker. rewrite Hmb. repeat split. exact Hm. }
    destruct Hs as (Hm' & Edp & Et & Esd).
    rewrite <- Esd. apply render_effect_state; [exact Hm'|].
    cbv zeta.
    destruct (flush_frame (queue (setTicker v w)) (set_queue [] (setTicker v w)))
      as (_ & _ & -> & _).
    change (ticker (hooks (set_queue [] (setTicker v w))))
      with (ticker (hooks (setTicker v w))).
    rewrite Et, Edp. unfold deps_changed, jsstring_eqb. cbn [fst snd].
    now rewrite bool_decide_eq_false_2.
  - intros v Hv. cbn [step]. rewrite Hmb.
    unfold setInterval. rewrite Hmb. cbn [snd].
    match goal with |- context [render ?x] => set (w0 := x) end.
    change (stockData (hooks w)) with (stockData (hooks w0)).
    apply render_effect_state; [exact Hm|].
    cbv zeta. change (queue w0) with (queue w ++ [SetValue (VStr v)]).
    rewrite flush_app. cbn [flush].
    change (deps w0) with (deps w).
    change (interval (hooks (store_interval ?x ?y))) with x.
    unfold deps_changed. cbn [fst snd].
    destruct (snd (deps w)) as [s0|p0]; cbn [sameValue].
    + unfold jsstring_eqb at 2. rewrite (bool_decide_eq_false_2 (s0 = v)).
      * now rewrite andb_false_r.
      * intros ->. now apply Hv.
    + now rewrite andb_false_r.
Qed.

(** The rest of [fetchData] is its calls of the setters, one after the
    other. *)
Lemma fetchData_resume_by_calls r w :
  fetchData_resume r w
  = fold_left (fun w0 c => apply_call c w0) (fetchData_resume_calls r) w.
Proof. destruct r; reflexivity. Qed.

Lemma settle_calls_waiting n o w :
  calls w !! n = Some (Waiting after_fetch) ->
  settle_calls n o w = fetchData_resume_calls (result_of o).
Proof.
  intros E. unfold settle_calls. rewrite E, start_after_fetch. reflexivity.
Qed.

(** The hook state after a call has gone on is the one before with the
    calls of the setters applied. *)
Lemma settle_hooks_by_calls n o w :
  hooks (settle n o w)
  = hooks (fold_left (fun w0 c => apply_call c w0) (settle_calls n o w) w).
Proof.
  assert (F : forall r t,
            hooks (fetchData_resume r (update_call n t Finished w))
            = hooks (fold_left (fun w0 c => apply_call c w0)
                       (fetchData_resume_calls r) w)).
  { intros r t. rewrite <- fetchData_resume_by_calls. open_world w.
    unfold fetchData_resume, setStockData, setError, setIsLoading, is_mounted.
    destruct r; destruct lifecycle0; reflexivity. }
  unfold settle, settle_calls.
  destruct (calls w !! n) as [[r|k|]|]; try reflexivity.
  - apply F.
  - destruct (start (k o)) as [t [r|k'|]]; cbn [snd]; try reflexivity.
    apply F.
Qed.

(** A render leaves the data as it is. *)
Lemma render_stockData w : stockData (hooks (render w)) = stockData (hooks w).
Proof.
  unfold render.
  destruct (flush_frame (queue w) (set_queue [] w)) as (_ & _ & _ & Ed).
  change (stockData (hooks (set_queue [] w))) with (stockData (hooks w)) in Ed.
  revert Ed. generalize (flush (queue w) (set_queue [] w)). intros w1 Ed.
  destruct (deps_changed _ _); [|exact Ed].
  change (hooks (set_deps ?d ?x)) with (hooks x).
  destruct (effect_body_hooks (fst (ticker (hooks w1), interval (hooks w1)))
              (snd (ticker (hooks w1), interval (hooks w1)))
              (effect_cleanup w1)) as (_ & _ & -> & _).
  destruct (fetchData_frame (fst (ticker (hooks w1), interval (hooks w1)))
              (snd (ticker (hooks w1), interval (hooks w1)))
              (effect_cleanup w1))
    as (_ & _ & _ & _ & _ & _ & _ & _ & _ & _ & -> & _).
  rewrite <- Ed. unfold effect_cleanup, clearInterval.
  destruct (pollingTimerRef (hooks w1)); reflexivity.
Qed.

Lemma step_Render_stockData w :
  stockData (hooks (step Render w)) = stockData (hooks w).
Proof.
  cbn [step]. destruct (is_mounted w); [apply render_stockData | reflexivity].
Qed.

(** C3, amended. A status outside 200..299 makes the call fail with an
    error whose message holds the status code and the status text. The
    rest of [fetchData] then calls [setError] with that message, which has
    "500" in it for the status 500, and [setIsLoading] with [false], and
    no other setter: the data is not touched, it is what it was before the
    fetch, and it still is after the next render. *)
Theorem http_failure_recorded
    (t : jsstring) (i : jsval) (r : Response) (w : World) :
  lifecycle w = Mounted -> normalize t <> [] -> ok r = false ->
  let n := fst (fetchData t i w) in
  let w1 := snd (fetchData t i w) in
  let w2 := settle n (Resolved r) w1 in
  snd (run (fun _ => Resolved r) (fetchStockDataApi t (period_for i) i))
  = inl (HttpError r) /\
  contains (message (HttpError r)) (Number_toString (status r)) /\
  contains (message (HttpError r)) (statusText r) /\
  settle_calls n (Resolved r) w1
  = [CallSetError (Some (message (HttpError r))); CallSetIsLoading false] /\
  (status r = 500 ->
   exists m, In (CallSetError (Some m)) (settle_calls n (Resolved r) w1) /\
             contains m (str "500")) /\
  stockData (hooks w2) = stockData (hooks w) /\
  stockData (hooks (step Render w2)) = stockData (hooks w).
Proof.
  intros Hm Hne Hok. cbv zeta.
  assert (Hrun : snd (run (fun _ => Resolved r)
                        (fetchStockDataApi t (period_for i) i))
                 = inl (HttpError r)).
  { rewrite run_fetchStockDataApi by exact Hne. cbn [snd result_of].
    now rewrite Hok. }
  destruct (HttpError_message r) as [Hcode Htext].
  destruct (fetchData_frame t i w)
    as (En & Ec & _ & _ & _ & _ & _ & _ & _ & _ & Ed & _).
  assert (Hw : calls (snd (fetchData t i w)) !! fst (fetchData t i w)
               = Some (Waiting after_fetch)).
  { rewrite En, Ec, start_fetchStockDataApi by exact Hne. cbn [snd].
    now apply list_lookup_middle. }
  assert (Hres : result_of (Resolved r) = inl (HttpError r))
    by (cbn [result_of]; now rewrite Hok).
  assert (Hcalls : settle_calls (fst (fetchData t i w)) (Resolved r)
                     (snd (fetchData t i w))
                   = [CallSetError (Some (message (HttpError r)));
                      CallSetIsLoading false]).
  { rewrite (settle_calls_waiting _ _ _ Hw), Hres. reflexivity. }
  assert (Hdata : stockData (hooks (settle (fst (fetchData t i w)) (Resolved r)
                                      (snd (fetchData t i w))))
                  = stockData (hooks w)).
  { rewrite settle_hooks_by_calls, Hcalls, <- Ed. cbn [fold_left apply_call].
    generalize (snd (fetchData t i w)). intros w0. open_world w0.
    unfold setError, setIsLoading, is_mounted.
    destruct lifecycle0; reflexivity. }
  split; [exact Hrun|]. split; [exact Hcode|]. split; [exact Htext|].
  split; [exact Hcalls|]. split; [|split].
  - intros H500. exists (message (HttpError r)). split.
    + rewrite Hcalls. now left.
    + assert (E : Number_toString (status r) = str "500")
        by (rewrite H500; reflexivity).
      rewrite <- E. exact Hcode.
  - exact Hdata.
  - rewrite step_Render_stockData. exact Hdata.
Qed.

(** C9. In every state that the controller can reach, [stockData.history]
    is an array. The state starts as [{ info: null, history: [] }]; when a
    call of [fetchData] goes on, the data either stays, or is replaced by
    the body of a success answer that is truthy and has an array for
    [history]; the failure branch of [fetchData] leaves the data. *)
Theorem stockData_history_is_array (w : World) :
  reachable w ->
  has_array_history (stockData (hooks w)) /\
  stockData (hooks init)
  = JObj [(str "info", JNull); (str "history", JArr [])] /\
  (forall n o,
     stockData (hooks (settle n o w)) = stockData (hooks w) \/
     exists r d,
       o = Resolved r /\ ok r = true /\ json_body r = inr d /\
       truthy d = true /\ Array_isArray (history_of d) = true /\
       stockData (hooks (settle n o w)) = d) /\
  (forall e w0,
     stockData (hooks (fetchData_resume (inl e) w0)) = stockData (hooks w0)).
Proof.
  intros Hw. pose proof (reachable_invariant w Hw) as (Ht & Hd & Hc).
  split; [exact Hd|]. split; [reflexivity|]. split.
  - intros n o.
    assert (U : forall c, stockData (hooks (update_call n [] c w))
                          = stockData (hooks w)) by reflexivity.
    destruct (settle_known n o w Hc) as [-> | [[_ ->] | [_ ->]]].
    + now left.
    + left. rewrite fetchData_resume_stockData. apply U.
    + rewrite fetchData_resume_stockData.
      destruct (result_of o) as [e|d] eqn:E; [left; apply U|].
      destruct (is_mounted (update_call n [] Finished w)); [|left; apply U].
      right. destruct o as [r|e]; cbn [result_of] in E; [|discriminate].
      destruct (ok r) eqn:Hok; [|discriminate].
      destruct (json_body r) as [e|d'] eqn:Hb; [discriminate|].
      destruct (truthy d' && Array_isArray (history_of d')) eqn:Hv;
        [|discriminate].
      injection E as <-. apply andb_true_iff in Hv. destruct Hv.
      exists r, d'. repeat split; assumption.
  - intros e w0. apply fetchData_resume_stockData.
Qed.
(** After the unmount nothing starts a fetch any more: whatever happens, the
    component stays unmounted and the list of requests stays as it is. *)
Lemma unmounted_is_quiet e w :
  reachable w -> lifecycle w = Unmounted ->
  lifecycle (step e w) = Unmounted /\
  requests_of (effects (step e w)) = requests_of (effects w).
Proof.
  intros Hw Hu. pose proof (reachable_invariant w Hw) as (Ht & _ & Hc).
  assert (Hmb : is_mounted w = false) by (unfold is_mounted; now rewrite Hu).
  destruct e as [| |v|v|n o|id|]; cbn [step]; rewrite ?Hu, ?Hmb; auto.
  - assert (F : forall r, lifecycle (fetchData_resume r (update_call n [] Finished w))
                          = lifecycle w
                          /\ effects (fetchData_resume r (update_call n [] Finished w))
                             = effects w ++ []).
    { intros r. open_world w.
      unfold fetchData_resume, setStockData, setError, setIsLoading, is_mounted.
      destruct r; destruct lifecycle0; split; reflexivity. }
    destruct (settle_known n o w Hc) as [-> | [[_ ->] | [_ ->]]]; [auto| |].
    + destruct (F (inl ValidationError)) as [-> ->]. now rewrite app_nil_r.
    + destruct (F (result_of o)) as [-> ->]. now rewrite app_nil_r.
  - rewrite Ht, lookup_empty. auto.
Qed.

End Claims.

Lemma fetch_start_state_witness :
  lifecycle (@step ascii_only Mount init) = Mounted /\
  isLoading (hooks (snd (@fetchData ascii_only (str "MSFT") (VStr (str "5m"))
                           (@step ascii_only Mount init)))) = true.
Proof.
  assert (Hm : lifecycle (@step ascii_only Mount init) = Mounted)
    by (vm_compute; reflexivity).
  split; [exact Hm|].
  exact (proj1 (proj1 (@fetch_start_state ascii_only (str "MSFT")
                         (VStr (str "5m")) (@step ascii_only Mount init) Hm))).
Defined.

(** C2, as the specification has it, fails: the component holds data, the
    ticker is changed, a fetch starts, and the data is still there. *)
Lemma fetch_start_counterexample :
  let w' := @step ascii_only (ChangeTicker (str "MSFT")) loaded_world in
  lifecycle loaded_world = Mounted /\
  stockData (hooks loaded_world) = loaded_data /\
  requests_of (effects w')
  = requests_of (effects loaded_world) ++
    [str "http://localhost:5000/api/stockdata/AAPL?period=5d&interval=15m";
     str "http://localhost:5000/api/stockdata/MSFT?period=1y&interval=%5Bobject+Promise%5D"] /\
  isLoading (hooks w') = true /\
  stockData (hooks w') = loaded_data /\
  ~ spec_data_cleared (stockData (hooks w')).
Proof.
  cbv zeta. repeat split; try (vm_compute; reflexivity).
  intros [H|H]; vm_compute in H; discriminate.
Qed.

Lemma http_failure_recorded_witness :
  let w := set_lifecycle Mounted init in
  let call := @fetchData ascii_only DEFAULT_TICKER (VStr DEFAULT_INTERVAL) w in
  lifecycle w = Mounted /\
  @normalize ascii_only DEFAULT_TICKER <> [] /\
  ok error_response = false /\
  settle_calls (fst call) (Resolved error_response) (snd call)
  = [CallSetError (Some (message (HttpError error_response)));
     CallSetIsLoading false].
Proof.
  cbv zeta.
  assert (Hm : lifecycle (set_lifecycle Mounted init) = Mounted) by reflexivity.
  assert (Hne : @normalize ascii_only DEFAULT_TICKER <> [])
    by (vm_compute; discriminate).
  assert (Hok : ok error_response = false) by reflexivity.
  split; [exact Hm|]. split; [exact Hne|]. split; [exact Hok|].
  exact (proj1 (proj2 (proj2 (proj2
    (@http_failure_recorded ascii_only DEFAULT_TICKER (VStr DEFAULT_INTERVAL)
       error_response (set_lifecycle Mounted init) Hm Hne Hok))))).
Defined.

(** C3, as the specification has it, fails: the component holds the data
    of a first answer; the next fetch is answered with the status 500;
    [fetchData] hands the message to [setError], and the data is neither
    [null] nor cleared, before the next render and after it. *)
Lemma http_failure_counterexample :
  let w0 := @run_events ascii_only
              [Mount; Settle 0 (Resolved loaded_response); Render] init in
  let w := settle 1 (Resolved error_response) w0 in
  stockData (hooks w0) = loaded_data /\
  settle_calls 1 (Resolved error_response) w0
  = [CallSetError (Some (str "API Error (500): Internal Server Error"));
     CallSetIsLoading false] /\
  stockData (hooks w) = loaded_data /\
  stockData (hooks (@step ascii_only Render w)) = loaded_data /\
  stockData (hooks w) <> JNull /\
  ~ spec_data_cleared (stockData (hooks w)) /\
  ~ spec_data_cleared (stockData (hooks (@step ascii_only Render w))).
Proof.
  cbv zeta.
  split; [vm_compute; reflexivity|]. split; [vm_compute; reflexivity|].
  split; [vm_compute; reflexivity|]. split; [vm_compute; reflexivity|].
  split; [vm_compute; discriminate|].
  split; intros [H|H]; vm_compute in H; discriminate.
Qed.

(** C7, on the code. After the mount no timer of the window is armed and
    [pollingTimerRef.current] is [undefined]: line 35 has queued its arrow
    function as an update of the [interval] state. The same holds after a
    change of ticker; and at the next render React calls that function,
    which starts a fetch and puts its promise in [interval]. *)
Theorem no_polling_timer_is_armed :
  let w1 := @step ascii_only Mount init in
  let w2 := @step ascii_only (ChangeTicker (str "MSFT")) w1 in
  (timers w1 = ∅ /\ size (timers w1) = 0%nat /\
   pollingTimerRef (hooks w1) = RUndefined /\
   queue w1 = [Updater DEFAULT_TICKER (VStr DEFAULT_INTERVAL)]) /\
  (timers w2 = ∅ /\ size (timers w2) = 0%nat /\
   pollingTimerRef (hooks w2) = RUndefined /\
   interval (hooks w2) = VPromise 1 /\
   queue w2 = [Updater (str "MSFT") (VPromise 1)]).
Proof. cbv zeta. repeat split; vm_compute; reflexivity. Qed.

Lemma stockData_history_is_array_witness :
  has_array_history (stockData (hooks loaded_world)).
Proof.
  exact (proj1 (@stockData_history_is_array ascii_only loaded_world
                  (@reachable_run_events ascii_only _ init
                     (@reachable_init ascii_only)))).
Defined.

(** * Further properties of the code *)

(** ** More on [fetchStockDataApi] *)

(** X1. When the symbol is accepted, a failure of the transport and a body
    that does not parse both come out of [fetchStockDataApi] as they are,
    after the one log line and the one request: a rejected [fetch] gives
    its own error, and on a success status the error of [response.json()]
    is the result, not the format error. *)
Theorem fetch_failures_propagate {T : CaseTable}
    (net : jsstring -> fetch_outcome) (s p : jsstring) (i : jsval) :
  normalize s <> [] ->
  let trace := [Logged (str "Fetching data from: " ++ apiUrl s p i);
                Get (apiUrl s p i)] in
  (forall e, net (apiUrl s p i) = Rejected e ->
     run net (fetchStockDataApi s p i) = (trace, inl e)) /\
  (forall r e, net (apiUrl s p i) = Resolved r -> ok r = true ->
     json_body r = inl e ->
     run net (fetchStockDataApi s p i) = (trace, inl e)).
Proof.
  intros Hne. cbv zeta. split.
  - intros e He. rewrite (run_fetchStockDataApi net s p i Hne), He. reflexivity.
  - intros r e Hr Hok Hb.
    rewrite (run_fetchStockDataApi net s p i Hne), Hr. cbn [result_of].
    now rewrite Hok, Hb.
Qed.

Lemma fetch_failures_propagate_witness :
  run (fun _ => Rejected (TypeError (str "Failed to fetch")))
    (@fetchStockDataApi ascii_only (str "aapl") (str "5d") (VStr (str "15m")))
  = ([Logged (str "Fetching data from: " ++
              @apiUrl ascii_only (str "aapl") (str "5d") (VStr (str "15m")));
      Get (@apiUrl ascii_only (str "aapl") (str "5d") (VStr (str "15m")))],
     inl (TypeError (str "Failed to fetch"))).
Proof.
  assert (Hne : @normalize ascii_only (str "aapl") <> [])
    by (vm_compute; discriminate).
  exact (proj1 (@fetch_failures_propagate ascii_only
                  (fun _ => Rejected (TypeError (str "Failed to fetch")))
                  (str "aapl") (str "5d") (VStr (str "15m")) Hne)
           (TypeError (str "Failed to fetch")) eq_refl).
Defined.

(** X2. The fetcher sees a symbol only through its trimmed, upper-cased
    form: two symbols with the same form give the same program, hence the
    same log, request and result. With the laws of the case table, a
    caller that normalises the symbol beforehand changes nothing. *)
Theorem symbol_variants_same_program {T : CaseTable} {L : CaseTableLaws}
    (s1 s2 p : jsstring) (i : jsval) :
  normalize s1 = normalize s2 ->
  fetchStockDataApi s1 p i = fetchStockDataApi s2 p i /\
  fetchStockDataApi (normalize s1) p i = fetchStockDataApi s1 p i.
Proof.
  unfold normalize. intros E.
  assert (F : toUpperCase (trim (toUpperCase (trim s1))) = toUpperCase (trim s1)).
  { rewrite (trim_fixed (toUpperCase (trim s1))).
    - apply toUpperCase_idempotent.
    - apply toUpperCase_no_lead, trim_no_lead.
    - apply toUpperCase_no_trail, trim_no_trail. }
  unfold fetchStockDataApi. rewrite F, E. split; reflexivity.
Qed.

Lemma symbol_variants_same_program_witness :
  @fetchStockDataApi ascii_only (str " aapl ") (str "5d") (VStr (str "15m"))
  = @fetchStockDataApi ascii_only (str "AAPL") (str "5d") (VStr (str "15m")).
Proof.
  refine (proj1 (@symbol_variants_same_program ascii_only ascii_only_laws
                   (str " aapl ") (str "AAPL") (str "5d") (VStr (str "15m")) _)).
  vm_compute. reflexivity.
Defined.

(** X3. [fetchStockDataApi] raises no [TypeError] of its own: the test
    [!data] keeps line 14 from reading [history] of [null]. A [TypeError]
    that comes out was the rejection of [fetch] or of [response.json()]. *)
Theorem no_own_type_error {T : CaseTable}
    (net : jsstring -> fetch_outcome) (s p : jsstring) (i : jsval) (m : jsstring) :
  snd (run net (fetchStockDataApi s p i)) = inl (TypeError m) ->
  net (apiUrl s p i) = Rejected (TypeError m) \/
  exists r, net (apiUrl s p i) = Resolved r /\ ok r = true /\
            json_body r = inl (TypeError m).
Proof.
  destruct (toUpperCase (trim s)) as [|c u] eqn:E.
  - rewrite (fetchStockDataApi_empty s p i E). discriminate.
  - rewrite run_fetchStockDataApi by (unfold normalize; rewrite E; discriminate).
    cbn [snd]. destruct (net (apiUrl s p i)) as [r|e]; cbn [result_of].
    + destruct (ok r) eqn:Hok; [|discriminate].
      destruct (json_body r) as [e|d] eqn:Hb.
      * intros [= ->]. right. exists r. auto.
      * destruct (truthy d && Array_isArray (history_of d)); discriminate.
    + intros [= ->]. now left.
Qed.

Lemma no_own_type_error_witness :
  let net := fun _ : jsstring => Rejected (TypeError (str "Failed to fetch")) in
  net (@apiUrl ascii_only (str "aapl") (str "5d") (VStr (str "15m")))
  = Rejected (TypeError (str "Failed to fetch")) \/
  exists r, net (@apiUrl ascii_only (str "aapl") (str "5d") (VStr (str "15m")))
            = Resolved r /\ ok r = true /\
            json_body r = inl (TypeError (str "Failed to fetch")).
Proof.
  cbv zeta.
  apply (@no_own_type_error ascii_only
           (fun _ => Rejected (TypeError (str "Failed to fetch")))
           (str "aapl") (str "5d") (VStr (str "15m")) (str "Failed to fetch")).
  vm_compute. reflexivity.
Defined.

Lemma hex_digit_query n : n < 16 -> query_char (hex_digit n) = true.
Proof.
  intros Hn. unfold query_char, form_safe, isAlphaNum, hex_digit.
  destruct (N.ltb_spec n 10).
  - replace (0x30 <=? 0x30 + n) with true by (symmetry; apply N.leb_le; lia).
    replace (0x30 + n <=? 0x39) with true by (symmetry; apply N.leb_le; lia).
    reflexivity.
  - replace (0x41 <=? 0x41 + (n - 10)) with true
      by (symmetry; apply N.leb_le; lia).
    replace (0x41 + (n - 10) <=? 0x5A) with true
      by (symmetry; apply N.leb_le; lia).
    now rewrite !orb_true_r.
Qed.

Lemma percent_byte_query b :
  b < 256 -> Forall (fun c => query_char c = true) (percent_byte b).
Proof.
  intros Hb. unfold percent_byte. repeat constructor.
  - apply hex_digit_query. apply N.Div0.div_lt_upper_bound. lia.
  - apply hex_digit_query. apply N.mod_lt. lia.
Qed.

Lemma utf8_encode_bytes c :
  is_code_point c -> Forall (fun b => b < 256) (utf8_encode c).
Proof.
  unfold is_code_point, utf8_encode. intros Hc.
  destruct ((0xD800 <=? c) && (c <=? 0xDFFF)).
  - cbn. repeat constructor; lia.
  - destruct (N.ltb_spec c 0x80); [repeat constructor; lia|].
    destruct (N.ltb_spec c 0x800).
    { repeat constructor.
      - assert (c / 64 < 32) by (apply N.Div0.div_lt_upper_bound; lia). lia.
      - assert (c mod 64 < 64) by (apply N.mod_lt; lia). lia. }
    destruct (N.ltb_spec c 0x10000).
    { repeat constructor.
      - assert (c / 4096 < 16) by (apply N.Div0.div_lt_upper_bound; lia). lia.
      - assert ((c / 64) mod 64 < 64) by (apply N.mod_lt; lia). lia.
      - assert (c mod 64 < 64) by (apply N.mod_lt; lia). lia. }
    repeat constructor.
    + assert (c / 262144 < 5) by (apply N.Div0.div_lt_upper_bound; lia). lia.
    + assert ((c / 4096) mod 64 < 64) by (apply N.mod_lt; lia). lia.
    + assert ((c / 64) mod 64 < 64) by (apply N.mod_lt; lia). lia.
    + assert (c mod 64 < 64) by (apply N.mod_lt; lia). lia.
Qed.

(** X4. Whatever the period and the interval are, the serializer of
    [URLSearchParams] puts them in the query with nothing but letters,
    digits, [* - . _], [+] and [%]: a value cannot bring a [&], a [=], a
    [#] or a blank into the URL, so it cannot add a parameter or cut the
    query short. *)
Theorem query_chars_safe (s : jsstring) :
  Forall is_code_point s ->
  Forall (fun c => query_char c = true) (form_encode s) /\
  ~ In 0x26 (form_encode s) /\ ~ In 0x3D (form_encode s) /\
  ~ In 0x23 (form_encode s) /\ ~ In 0x20 (form_encode s).
Proof.
  intros Hs.
  assert (F : Forall (fun c => query_char c = true) (form_encode s)).
  { unfold form_encode. induction Hs as [|c s Hc Hs IH]; cbn [flat_map].
    - constructor.
    - apply Forall_app. split; [|exact IH].
      unfold form_encode_cp. destruct (form_safe c) eqn:Esafe.
      + repeat constructor. unfold query_char. now rewrite Esafe.
      + destruct (c =? 0x20); [repeat constructor|].
        pose proof (utf8_encode_bytes c Hc) as Hb.
        induction Hb as [|b bs Hb Hbs IHb]; cbn [flat_map]; [constructor|].
        apply Forall_app. split; [now apply percent_byte_query | exact IHb]. }
  split; [exact F|].
  rewrite Forall_forall in F.
  repeat split; intros Hin; apply list_elem_of_In in Hin;
    apply F in Hin; vm_compute in Hin; discriminate.
Qed.

Lemma query_chars_safe_witness :
  ~ In 0x26 (form_encode (str "5d&interval=1m")).
Proof.
  refine (proj1 (proj2 (query_chars_safe (str "5d&interval=1m") _))).
  unfold is_code_point. repeat constructor.
Defined.

(** ** More on the component [App] *)

Section MoreOnApp.
Context {T : CaseTable}.

(** A waiting call goes on with the rest of [fetchData]. *)
Lemma settle_waiting n o w :
  calls w !! n = Some (Waiting after_fetch) ->
  settle n o w = fetchData_resume (result_of o) (update_call n [] Finished w).
Proof.
  intros E. unfold settle. rewrite E, start_after_fetch. reflexivity.
Qed.

(** The hook state after the rest of [fetchData], when mounted. *)
Lemma fetchData_resume_hooks r w :
  lifecycle w = Mounted ->
  hooks (fetchData_resume r w)
  = {| ticker := ticker (hooks w); interval := interval (hooks w);
       stockData := match r with inr d => d | inl _ => stockData (hooks w) end;
       isLoading := false;
       error := match r with
                | inr _ => error (hooks w)
                | inl e => Some (message e)
                end;
       pollingTimerRef := pollingTimerRef (hooks w) |}.
Proof.
  intros Hm. open_world w. cbn [lifecycle] in Hm. subst.
  unfold fetchData_resume, setStockData, setError, setIsLoading, is_mounted.
  destruct r; reflexivity.
Qed.

Lemma fetchData_resume_effects r w :
  effects (fetchData_resume r w) = effects w.
Proof.
  open_world w.
  unfold fetchData_resume, setStockData, setError, setIsLoading, is_mounted.
  destruct r; destruct lifecycle0; reflexivity.
Qed.

(** A call of [fetchData] followed at once by its end. *)
Lemma fetchData_settled t i o w :
  lifecycle w = Mounted ->
  let r := match toUpperCase (trim t) with
           | [] => inl ValidationError
           | _ :: _ => result_of o
           end in
  hooks (settle (fst (fetchData t i w)) o (snd (fetchData t i w)))
  = {| ticker := ticker (hooks w); interval := interval (hooks w);
       stockData := match r with inr d => d | inl _ => stockData (hooks w) end;
       isLoading := false;
       error := match r with inr _ => None | inl e => Some (message e) end;
       pollingTimerRef := pollingTimerRef (hooks w) |}.
Proof.
  intros Hm. cbv zeta.
  destruct (fetchData_frame t i w)
    as (En & Ec & _ & _ & El & _ & _ & _ & Et & Ei & Ed & Er & Hl).
  destruct (Hl Hm) as [Hload Herr].
  set (w1 := snd (fetchData t i w)) in *. rewrite En.
  assert (Hc : calls w1 !! length (calls w)
               = Some (snd (start (fetchStockDataApi t (period_for i) i)))).
  { rewrite Ec. now apply list_lookup_middle. }
  assert (Hm1 : lifecycle (update_call (length (calls w)) [] Finished w1)
                = Mounted) by (cbn; congruence).
  destruct (toUpperCase (trim t)) as [|c u] eqn:E.
  - rewrite (fetchStockDataApi_empty t _ i E) in Hc. cbn [start snd] in Hc.
    unfold settle. rewrite Hc.
    rewrite (fetchData_resume_hooks _ _ Hm1). cbn [update_call hooks].
    now rewrite Et, Ei, Ed, Er.
  - rewrite start_fetchStockDataApi in Hc by (rewrite E; discriminate).
    cbn [snd] in Hc. rewrite (settle_waiting _ o _ Hc).
    rewrite (fetchData_resume_hooks _ _ Hm1). cbn [update_call hooks].
    rewrite Et, Ei, Ed, Er, Herr. destruct (result_of o); reflexivity.
Qed.

(** What a call going on leaves alone. *)
Lemma settle_env n o w :
  lifecycle (settle n o w) = lifecycle w /\ queue (settle n o w) = queue w.
Proof.
  assert (F : forall r w0, lifecycle (fetchData_resume r w0) = lifecycle w0
                           /\ queue (fetchData_resume r w0) = queue w0).
  { intros r w0. open_world w0.
    unfold fetchData_resume, setStockData, setError, setIsLoading, is_mounted.
    destruct r; destruct lifecycle0; split; reflexivity. }
  unfold settle. destruct (calls w !! n) as [[r|k|]|]; try (split; reflexivity).
  - destruct (F r (update_call n [] Finished w)) as [-> ->]. split; reflexivity.
  - destruct (start (k o)) as [t [r|k'|]]; try (split; reflexivity).
    destruct (F r (update_call n t Finished w)) as [-> ->]. split; reflexivity.
Qed.

(** Working off the queue keeps [isLoading] on and the error cleared, and
    sets them so when it calls an arrow function of line 35. *)
Lemma flush_keeps q w :
  lifecycle w = Mounted ->
  isLoading (hooks w) = true -> error (hooks w) = None ->
  isLoading (hooks (flush q w)) = true /\ error (hooks (flush q w)) = None.
Proof.
  revert w. induction q as [|[v|t i] q IH]; intros w Hm Hl He; cbn [flush].
  - now split.
  - apply IH; assumption.
  - destruct (fetchData_frame t i w)
      as (_ & _ & _ & _ & El & _ & _ & _ & _ & _ & _ & _ & Hs).
    destruct (Hs Hm) as [Hl' He'].
    destruct (fetchData t i w) as [p w1]. cbn [snd] in *.
    apply IH; [cbn; congruence | exact Hl' | exact He'].
Qed.

Lemma flush_updater q w :
  lifecycle w = Mounted -> (exists t i, In (Updater t i) q) ->
  isLoading (hooks (flush q w)) = true /\ error (hooks (flush q w)) = None.
Proof.
  revert w. induction q as [|[v|t i] q IH]; intros w Hm (t0 & i0 & Hin).
  - destruct Hin.
  - cbn [flush]. apply IH; [exact Hm|].
    destruct Hin as [H|H]; [discriminate | now exists t0, i0].
  - cbn [flush].
    destruct (fetchData_frame t i w)
      as (_ & _ & _ & _ & El & _ & _ & _ & _ & _ & _ & _ & Hs).
    destruct (Hs Hm) as [Hl' He'].
    destruct (fetchData t i w) as [p w1]. cbn [snd] in *.
    apply flush_keeps; [cbn; congruence | exact Hl' | exact He'].
Qed.

(** The render that follows while an arrow function of line 35 is queued:
    React calls the function, whose [fetchData] hands [true] to
    [setIsLoading] and [null] to [setError] after anything handed to them
    before. *)
Lemma render_updater_state w :
  lifecycle w = Mounted -> updater_pending w ->
  isLoading (hooks (step Render w)) = true /\
  error (hooks (step Render w)) = None.
Proof.
  intros Hm Hp. cbn [step]. unfold is_mounted. rewrite Hm. unfold render.
  destruct (flush_updater (queue w) (set_queue [] w) Hm Hp) as [Hl He].
  destruct (flush_frame (queue w) (set_queue [] w)) as (El & _).
  revert Hl He El. generalize (flush (queue w) (set_queue [] w)).
  intros w1 Hl He El.
  destruct (deps_changed _ _); [|now split].
  change (hooks (set_deps ?d ?x)) with (hooks x).
  assert (Hm1 : lifecycle (effect_cleanup w1) = Mounted).
  { unfold effect_cleanup, clearInterval.
    destruct (pollingTimerRef (hooks w1)); cbn; rewrite El; exact Hm. }
  destruct (effect_body_state (fst (ticker (hooks w1), interval (hooks w1)))
              (snd (ticker (hooks w1), interval (hooks w1)))
              (effect_cleanup w1) Hm1) as (-> & -> & _).
  now split.
Qed.

(** A call of [fetchData] and its end keep the component mounted and the
    queue as it is. *)
Lemma fetchData_settle_env t i o w :
  lifecycle (settle (fst (fetchData t i w)) o (snd (fetchData t i w)))
  = lifecycle w /\
  queue (settle (fst (fetchData t i w)) o (snd (fetchData t i w))) = queue w.
Proof.
  destruct (settle_env (fst (fetchData t i w)) o (snd (fetchData t i w)))
    as [-> ->].
  destruct (fetchData_frame t i w) as (_ & _ & _ & _ & -> & -> & _).
  now split.
Qed.

(** The call that [fetchData] has just started. *)
Lemma fetchData_new_call t i w :
  calls (snd (fetchData t i w)) !! fst (fetchData t i w)
  = Some (snd (start (fetchStockDataApi t (period_for i) i))).
Proof.
  destruct (fetchData_frame t i w) as (-> & -> & _).
  now apply list_lookup_middle.
Qed.

(** X5. The way from loading to success: when the backend answers a call
    of [fetchData] with a success status and a body [d] that is truthy and
    has an array for [history], the rest of the call hands [d] to
    [setStockData] and [false] to [setIsLoading]. With the arrow function
    of line 35 queued, as it is after every run of the effect, the next
    render has [d] as its data and no error, and [isLoading] is on again,
    since that render starts the next fetch. *)
Theorem success_recorded (t : jsstring) (i : jsval) (r : Response) (d : json)
    (w : World) :
  lifecycle w = Mounted -> updater_pending w -> normalize t <> [] ->
  ok r = true -> json_body r = inr d ->
  truthy d = true -> has_array_history d ->
  let n := fst (fetchData t i w) in
  let w1 := snd (fetchData t i w) in
  let w2 := settle n (Resolved r) w1 in
  let w3 := step Render w2 in
  settle_calls n (Resolved r) w1
  = [CallSetStockData d; CallSetIsLoading false] /\
  stockData (hooks w2) = d /\
  stockData (hooks w3) = d /\ error (hooks w3) = None /\
  isLoading (hooks w3) = true.
Proof.
  intros Hm Hp Hne Hok Hb Ht [items Hh]. cbv zeta.
  assert (Hres : result_of (Resolved r) = inr d)
    by (cbn [result_of]; now rewrite Hok, Hb, Ht, Hh).
  assert (Hw : calls (snd (fetchData t i w)) !! fst (fetchData t i w)
               = Some (Waiting after_fetch)).
  { rewrite fetchData_new_call, start_fetchStockDataApi by exact Hne.
    reflexivity. }
  assert (Hd : stockData (hooks (settle (fst (fetchData t i w)) (Resolved r)
                                   (snd (fetchData t i w)))) = d).
  { rewrite (fetchData_settled t i (Resolved r) w Hm).
    unfold normalize in Hne.
    destruct (toUpperCase (trim t)) as [|c u]; [congruence|].
    now rewrite Hres. }
  destruct (fetchData_settle_env t i (Resolved r) w) as [El Eq].
  assert (Hp2 : updater_pending
                  (settle (fst (fetchData t i w)) (Resolved r)
                     (snd (fetchData t i w))))
    by (unfold updater_pending; now rewrite Eq).
  destruct (render_updater_state _ (eq_trans El Hm) Hp2) as [Hl He].
  split; [now rewrite (settle_calls_waiting _ _ _ Hw), Hres|].
  split; [exact Hd|]. split; [now rewrite step_Render_stockData|].
  now split.
Qed.

(** X6. A ticker that is empty once trimmed (the input was cleared, or
    holds blanks) costs no request and no log line: the call of
    [fetchData] adds no effect, and its rest hands "Ticker symbol is
    required." to [setError] and [false] to [setIsLoading] and leaves the
    data. With the arrow function of line 35 queued, the next render calls
    [fetchData] again, which clears the error: that render has no error,
    [isLoading] on and the data as it was. *)
Theorem empty_ticker_recorded (t : jsstring) (i : jsval)
    (o : fetch_outcome) (w : World) :
  lifecycle w = Mounted -> updater_pending w -> trim t = [] ->
  let n := fst (fetchData t i w) in
  let w1 := snd (fetchData t i w) in
  let w2 := settle n o w1 in
  let w3 := step Render w2 in
  effects w1 = effects w /\ effects w2 = effects w /\
  settle_calls n o w1
  = [CallSetError (Some (str "Ticker symbol is required."));
     CallSetIsLoading false] /\
  stockData (hooks w2) = stockData (hooks w) /\
  error (hooks w3) = None /\ isLoading (hooks w3) = true /\
  stockData (hooks w3) = stockData (hooks w).
Proof.
  intros Hm Hp Ht. cbv zeta.
  assert (E : toUpperCase (trim t) = []) by now rewrite Ht.
  assert (Hw : calls (snd (fetchData t i w)) !! fst (fetchData t i w)
               = Some (Settled (inl ValidationError))).
  { rewrite fetchData_new_call, (fetchStockDataApi_empty t _ i E). reflexivity. }
  assert (Hd : stockData (hooks (settle (fst (fetchData t i w)) o
                                   (snd (fetchData t i w))))
               = stockData (hooks w)).
  { rewrite (fetchData_settled t i o w Hm), E. reflexivity. }
  destruct (fetchData_frame t i w) as (_ & _ & Ee & _).
  rewrite (fetchStockDataApi_empty t _ i E) in Ee. cbn [start fst] in Ee.
  rewrite app_nil_r in Ee.
  assert (Hs : effects (settle (fst (fetchData t i w)) o (snd (fetchData t i w)))
               = effects (snd (fetchData t i w))).
  { unfold settle. rewrite Hw, fetchData_resume_effects.
    cbn [update_call effects]. apply app_nil_r. }
  destruct (fetchData_settle_env t i o w) as [El Eq].
  assert (Hp2 : updater_pending
                  (settle (fst (fetchData t i w)) o (snd (fetchData t i w))))
    by (unfold updater_pending; now rewrite Eq).
  destruct (render_updater_state _ (eq_trans El Hm) Hp2) as [Hl He].
  split; [exact Ee|]. split; [now rewrite Hs|].
  split; [unfold settle_calls; now rewrite Hw|].
  split; [exact Hd|]. split; [exact He|]. split; [exact Hl|].
  now rewrite step_Render_stockData.
Qed.
End MoreOnApp.

Section TheLoop.
Context {T : CaseTable}.

(** [fetchData] up to its [await], on a mounted component. *)
Lemma fetchData_mounted t i h q d tm nt cs ef :
  fetchData t i
    {| hooks := h; lifecycle := Mounted; queue := q; deps := d; timers := tm;
       next_timer := nt; calls := cs; effects := ef |}
  = (length cs,
     {| hooks := {| ticker := ticker h; interval := interval h;
                    stockData := stockData h; isLoading := true; error := None;
                    pollingTimerRef := pollingTimerRef h |};
        lifecycle := Mounted; queue := q; deps := d; timers := tm;
        next_timer := nt;
        calls := cs ++ [snd (start (fetchStockDataApi t (period_for i) i))];
        effects := ef ++ fst (start (fetchStockDataApi t (period_for i) i)) |}).
Proof.
  unfold fetchData.
  destruct (start (fetchStockDataApi t (period_for i) i)). reflexivity.
Qed.

(** One render with the arrow function of line 35 in the queue: React calls
    it, which starts a fetch and makes [interval] a new promise; [interval]
    has changed, so the effect runs again, starts a second fetch and queues
    the next arrow function. *)
Lemma render_effect_pending t w :
  effect_pending t w ->
  effect_pending t (step Render w) /\
  length (calls (step Render w)) = (length (calls w) + 2)%nat /\
  timers (step Render w) = timers w /\
  (normalize t <> [] ->
   length (requests_of (effects (step Render w)))
   = (length (requests_of (effects w)) + 2)%nat).
Proof.
  intros (Hm & Ht & Hr & Hq & Hd & Hb).
  destruct w as [[tk iv sd il er rf] lc q dp tm nt cs ef].
  cbn [lifecycle hooks ticker pollingTimerRef queue deps interval calls]
    in Hm, Ht, Hr, Hq, Hd, Hb.
  subst lc t rf q dp.
  assert (Hch : deps_changed (tk, iv) (tk, VPromise (length cs)) = true).
  { unfold deps_changed. cbn [fst snd].
    destruct iv as [s0|p0]; cbn [sameValue].
    - now rewrite andb_false_r.
    - replace (p0 =? length cs)%nat with false
        by (symmetry; apply Nat.eqb_neq; lia).
      now rewrite andb_false_r. }
  assert (E : step Render
    {| hooks := {| ticker := tk; interval := iv; stockData := sd;
                   isLoading := il; error := er; pollingTimerRef := RUndefined |};
       lifecycle := Mounted; queue := [Updater tk iv]; deps := (tk, iv);
       timers := tm; next_timer := nt; calls := cs; effects := ef |}
    = {| hooks := {| ticker := tk; interval := VPromise (length cs);
                     stockData := sd; isLoading := true; error := None;
                     pollingTimerRef := RUndefined |};
         lifecycle := Mounted;
         queue := [Updater tk (VPromise (length cs))];
         deps := (tk, VPromise (length cs));
         timers := tm; next_timer := nt;
         calls := (cs ++ [snd (start (fetchStockDataApi tk (period_for iv) iv))])
                  ++ [snd (start (fetchStockDataApi tk
                                    (period_for (VPromise (length cs)))
                                    (VPromise (length cs))))];
         effects := (ef ++ fst (start (fetchStockDataApi tk (period_for iv) iv)))
                    ++ fst (start (fetchStockDataApi tk
                                     (period_for (VPromise (length cs)))
                                     (VPromise (length cs)))) |}).
  { unfold step, is_mounted, render, set_queue.
    cbn [lifecycle queue hooks deps timers next_timer calls effects flush].
    rewrite fetchData_mounted.
    unfold store_interval, with_hooks.
    cbn [lifecycle queue hooks deps timers next_timer calls effects
         ticker interval stockData isLoading error pollingTimerRef fst snd].
    rewrite Hch.
    unfold effect_cleanup, clearInterval, effect_body.
    cbn [hooks pollingTimerRef].
    rewrite fetchData_mounted. reflexivity. }
  rewrite E. unfold effect_pending.
  cbn [lifecycle queue hooks deps timers next_timer calls effects
       ticker interval stockData isLoading error pollingTimerRef].
  repeat split.
  - rewrite !length_app. cbn. lia.
  - rewrite !length_app. cbn. lia.
  - intros Hne. unfold normalize in Hne.
    rewrite !start_fetchStockDataApi by exact Hne. cbn [fst snd].
    unfold requests_of. rewrite !flat_map_app, !length_app. cbn. lia.
Qed.
(** X10. After the mount the component never comes to rest, with no timer
    and nothing done by the user: every render starts two more fetches and
    leaves the next update in the queue. After [n] renders [1 + 2n]
    requests have gone out for the default ticker, the queue holds one
    update again, and no timer is armed. *)
Theorem mount_render_loop (n : nat) :
  let w := Nat.iter n (step Render) (step Mount init) in
  length (requests_of (effects w)) = (1 + 2 * n)%nat /\
  length (calls w) = (1 + 2 * n)%nat /\
  length (queue w) = 1%nat /\
  lifecycle w = Mounted /\
  timers w = ∅.
Proof.
  cbv zeta.
  assert (Hne : normalize DEFAULT_TICKER <> []) by (vm_compute; discriminate).
  assert (H : effect_pending DEFAULT_TICKER
                (Nat.iter n (step Render) (step Mount init)) /\
              length (requests_of
                (effects (Nat.iter n (step Render) (step Mount init))))
              = (1 + 2 * n)%nat /\
              length (calls (Nat.iter n (step Render) (step Mount init)))
              = (1 + 2 * n)%nat /\
              timers (Nat.iter n (step Render) (step Mount init)) = ∅).
  { induction n as [|n IH].
    - change (Nat.iter 0 (step Render) (step Mount init))
        with (step Mount init).
      unfold step, init. cbn [lifecycle].
      unfold effect_body, fetchData, initial_hooks, set_lifecycle.
      cbn [hooks ticker interval fst snd].
      rewrite start_fetchStockDataApi by exact Hne.
      unfold effect_pending. repeat split.
    - change (Nat.iter (S n) (step Render) (step Mount init))
        with (step Render (Nat.iter n (step Render) (step Mount init))).
      destruct IH as (Hp & Hr & Hc & Ht).
      destruct (render_effect_pending _ _ Hp) as (Hp' & Hc' & Ht' & Hr').
      rewrite Hc', Ht', (Hr' Hne), Hr, Hc.
      split; [exact Hp'|]. split; [lia|]. split; [lia | exact Ht]. }
  destruct H as ((Hm & _ & _ & Hq & _) & Hr & Hc & Ht).
  rewrite Hq. repeat split; assumption.
Qed.
End TheLoop.

Section MoreOnSettling.
Context {T : CaseTable}.

(** X7. Nothing tells an answer that is out of date from a current one:
    when two calls of [fetchData] wait for the backend and both get valid
    answers, the data of the controller is that of the answer that arrives
    last, whichever call was started first, and so it is in the render
    that follows. The first answer already has [false] handed to
    [setIsLoading] although the other call still waits. *)
Theorem last_answer_wins (n m : nat) (o1 o2 : fetch_outcome) (d1 d2 : json)
    (w : World) :
  lifecycle w = Mounted -> n <> m ->
  calls w !! n = Some (Waiting after_fetch) ->
  calls w !! m = Some (Waiting after_fetch) ->
  result_of o1 = inr d1 -> result_of o2 = inr d2 ->
  stockData (hooks (settle m o2 (settle n o1 w))) = d2 /\
  stockData (hooks (settle n o1 (settle m o2 w))) = d1 /\
  stockData (hooks (step Render (settle m o2 (settle n o1 w)))) = d2 /\
  settle_calls n o1 w = [CallSetStockData d1; CallSetIsLoading false] /\
  calls (settle n o1 w) !! m = Some (Waiting after_fetch).
Proof.
  intros Hm Hnm Hn Hmw H1 H2.
  assert (A : forall k j o d w0,
    lifecycle w0 = Mounted -> k <> j ->
    calls w0 !! k = Some (Waiting after_fetch) ->
    calls w0 !! j = Some (Waiting after_fetch) ->
    result_of o = inr d ->
    lifecycle (settle k o w0) = Mounted /\
    stockData (hooks (settle k o w0)) = d /\
    isLoading (hooks (settle k o w0)) = false /\
    calls (settle k o w0) !! j = Some (Waiting after_fetch)).
  { intros k j o d w0 Hm0 Hkj Hk Hj Ho.
    rewrite (settle_waiting k o w0 Hk), Ho.
    assert (Hm1 : lifecycle (update_call k [] Finished w0) = Mounted)
      by exact Hm0.
    rewrite (fetchData_resume_hooks _ _ Hm1).
    cbn [stockData isLoading]. repeat split.
    - open_world w0. cbn [lifecycle] in Hm0. subst. reflexivity.
    - assert (Ec : calls (fetchData_resume (inr d) (update_call k [] Finished w0))
                   = <[k := Finished]> (calls w0)).
      { open_world w0.
        unfold fetchData_resume, setStockData, setIsLoading, is_mounted.
        destruct lifecycle0; reflexivity. }
      rewrite Ec. now rewrite list_lookup_insert_ne. }
  destruct (A n m o1 d1 w Hm Hnm Hn Hmw H1) as (Hm1 & _ & Hl1 & Hc1).
  destruct (A m n o2 d2 w Hm (not_eq_sym Hnm) Hmw Hn H2) as (Hm2 & _ & _ & Hc2).
  assert (Hfin : forall k o w0, calls w0 !! k = Some (Waiting after_fetch) ->
                 calls (settle k o w0) !! k = Some Finished).
  { intros k o w0 Hk. rewrite (settle_waiting k o w0 Hk).
    assert (Ec : forall r, calls (fetchData_resume r (update_call k [] Finished w0))
                           = <[k := Finished]> (calls w0)).
    { intros r. open_world w0.
      unfold fetchData_resume, setStockData, setError, setIsLoading, is_mounted.
      destruct r; destruct lifecycle0; reflexivity. }
    rewrite Ec. apply list_lookup_insert_eq. now apply lookup_lt_Some in Hk. }
  assert (D2 : stockData (hooks (settle m o2 (settle n o1 w))) = d2).
  { rewrite (settle_waiting m o2 _ Hc1), H2.
    assert (Hm3 : lifecycle (update_call m [] Finished (settle n o1 w)) = Mounted)
      by exact Hm1.
    now rewrite (fetchData_resume_hooks _ _ Hm3). }
  split; [exact D2|]. split.
  - rewrite (settle_waiting n o1 _ Hc2), H1.
    assert (Hm3 : lifecycle (update_call n [] Finished (settle m o2 w)) = Mounted)
      by exact Hm2.
    now rewrite (fetchData_resume_hooks _ _ Hm3).
  - split; [now rewrite step_Render_stockData|].
    split; [now rewrite (settle_calls_waiting _ _ _ Hn), H1 | exact Hc1].
Qed.

(** The reference of the timer through the operations. *)
Lemma fetchData_resume_ref r w :
  pollingTimerRef (hooks (fetchData_resume r w)) = pollingTimerRef (hooks w).
Proof.
  open_world w.
  unfold fetchData_resume, setStockData, setError, setIsLoading, is_mounted.
  destruct r; destruct lifecycle0; reflexivity.
Qed.

Lemma settle_ref n o w :
  pollingTimerRef (hooks (settle n o w)) = pollingTimerRef (hooks w).
Proof.
  unfold settle. destruct (calls w !! n) as [[r|k|]|]; try reflexivity.
  - now rewrite fetchData_resume_ref.
  - destruct (start (k o)) as [t [r|k'|]]; try reflexivity.
    now rewrite fetchData_resume_ref.
Qed.

Lemma flush_ref q w :
  pollingTimerRef (hooks (flush q w)) = pollingTimerRef (hooks w).
Proof.
  revert w. induction q as [|[v|t i] q IH]; intros w; cbn [flush].
  - reflexivity.
  - now rewrite IH.
  - destruct (fetchData_frame t i w)
      as (_ & _ & _ & _ & _ & _ & _ & _ & _ & _ & _ & Er & _).
    destruct (fetchData t i w) as [p w1]. cbn [snd] in Er.
    rewrite IH. exact Er.
Qed.

Lemma step_no_handle e w :
  no_handle (pollingTimerRef (hooks w)) ->
  no_handle (pollingTimerRef (hooks (step e w))).
Proof.
  intros Hw.
  assert (Heff : forall t i w0,
            no_handle (pollingTimerRef (hooks (effect_body t i w0)))).
  { intros t i w0. destruct (effect_body_hooks t i w0) as (_ & _ & _ & _ & _ & ->).
    now right. }
  assert (Hren : forall w0, no_handle (pollingTimerRef (hooks w0)) ->
                            no_handle (pollingTimerRef (hooks (render w0)))).
  { intros w0 H0. unfold render.
    destruct (deps_changed _ _); [apply Heff|].
    now rewrite flush_ref. }
  destruct e as [| |v|v|n o|id|]; cbn [step].
  - destruct (lifecycle w); try exact Hw. apply Heff.
  - destruct (is_mounted w); [now apply Hren | exact Hw].
  - destruct (is_mounted w) eqn:Em; [|exact Hw]. apply Hren.
    unfold setTicker. now rewrite Em.
  - destruct (is_mounted w) eqn:Em; [|exact Hw]. apply Hren.
    unfold setInterval. now rewrite Em.
  - now rewrite settle_ref.
  - destruct (timers w !! id); [|exact Hw].
    destruct (fetchData_frame (callback_ticker t) (callback_interval t) w)
      as (_ & _ & _ & _ & _ & _ & _ & _ & _ & _ & _ & -> & _).
    exact Hw.
  - destruct (is_mounted w); [|exact Hw].
    unfold effect_cleanup, clearInterval.
    destruct (pollingTimerRef (hooks w)) eqn:Er; cbn; rewrite ?Er; exact Hw.
Qed.

(** X8. The window never has a timer of this component, and
    [pollingTimerRef.current] is never a timer handle (it is [null] before
    the mount and [undefined] after): in every state that can be reached
    the timer table is empty and both calls of [clearInterval], that of
    line 34 and that of the cleanup, change nothing. *)
Theorem never_a_timer (w : World) :
  reachable w ->
  timers w = ∅ /\
  no_handle (pollingTimerRef (hooks w)) /\
  ref_truthy (pollingTimerRef (hooks w)) = false /\
  effect_cleanup w = w.
Proof.
  intros Hw.
  assert (Hr : no_handle (pollingTimerRef (hooks w))).
  { induction Hw as [|e w _ IH]; [now left | now apply step_no_handle]. }
  split; [exact (reachable_no_timer w Hw)|]. split; [exact Hr|].
  unfold effect_cleanup.
  destruct Hr as [-> | ->]; split; reflexivity.
Qed.

(** X9. Once the component is unmounted no request goes out any more,
    whatever happens afterwards: answers that come in late, renders, input,
    timers. *)
Theorem no_fetch_after_unmount (es : list event) (w : World) :
  reachable w -> lifecycle w = Unmounted ->
  lifecycle (run_events es w) = Unmounted /\
  requests_of (effects (run_events es w)) = requests_of (effects w).
Proof.
  revert w. induction es as [|e es IH]; intros w Hw Hu; [now split|].
  destruct (unmounted_is_quiet e w Hw Hu) as [Hu' Hr'].
  change (run_events (e :: es) w) with (run_events es (step e w)).
  destruct (IH (step e w) (reachable_step e w Hw) Hu') as [-> ->].
  now split.
Qed.
End MoreOnSettling.

Lemma success_recorded_witness :
  let w := @step ascii_only Mount init in
  let call := @fetchData ascii_only (str "MSFT") (VStr (str "5m")) w in
  settle_calls (fst call) (Resolved loaded_response) (snd call)
  = [CallSetStockData loaded_data; CallSetIsLoading false].
Proof.
  cbv zeta.
  refine (proj1 (@success_recorded ascii_only (str "MSFT") (VStr (str "5m"))
                   loaded_response loaded_data (@step ascii_only Mount init)
                   _ _ _ _ _ _ _)).
  - vm_compute. reflexivity.
  - exists DEFAULT_TICKER, (VStr DEFAULT_INTERVAL). vm_compute. left. reflexivity.
  - vm_compute. discriminate.
  - reflexivity.
  - reflexivity.
  - reflexivity.
  - eexists. vm_compute. reflexivity.
Defined.

Lemma empty_ticker_recorded_witness :
  let w := @step ascii_only Mount init in
  let call := @fetchData ascii_only (str "  ") (VStr (str "5m")) w in
  effects (snd call) = effects w /\
  settle_calls (fst call) (Rejected (Error [])) (snd call)
  = [CallSetError (Some (str "Ticker symbol is required."));
     CallSetIsLoading false].
Proof.
  cbv zeta.
  assert (Hm : lifecycle (@step ascii_only Mount init) = Mounted)
    by (vm_compute; reflexivity).
  assert (Hp : updater_pending (@step ascii_only Mount init)).
  { exists DEFAULT_TICKER, (VStr DEFAULT_INTERVAL). vm_compute. left.
    reflexivity. }
  assert (Ht : trim (str "  ") = []) by (vm_compute; reflexivity).
  pose proof (@empty_ticker_recorded ascii_only (str "  ") (VStr (str "5m"))
                (Rejected (Error [])) (@step ascii_only Mount init) Hm Hp Ht)
    as H.
  cbv zeta in H. split; [exact (proj1 H) | exact (proj1 (proj2 (proj2 H)))].
Defined.

Lemma last_answer_wins_witness :
  let w := @run_events ascii_only [Mount; Render] init in
  stockData (hooks (settle 2 (Resolved loaded_response) (settle 0 sample_net_answer w)))
  = loaded_data /\
  stockData (hooks (settle 0 sample_net_answer (settle 2 (Resolved loaded_response) w)))
  = initial_stockData.
Proof.
  cbv zeta.
  assert (H := @last_answer_wins ascii_only 0%nat 2%nat sample_net_answer
                 (Resolved loaded_response) initial_stockData loaded_data
                 (@run_events ascii_only [Mount; Render] init)).
  assert (Hm : lifecycle (@run_events ascii_only [Mount; Render] init) = Mounted)
    by (vm_compute; reflexivity).
  assert (H0 : calls (@run_events ascii_only [Mount; Render] init) !! 0%nat
               = Some (Waiting after_fetch)) by (vm_compute; reflexivity).
  assert (H2 : calls (@run_events ascii_only [Mount; Render] init) !! 2%nat
               = Some (Waiting after_fetch)) by (vm_compute; reflexivity).
  specialize (H Hm ltac:(discriminate) H0 H2 eq_refl eq_refl).
  split; [exact (proj1 H) | exact (proj1 (proj2 H))].
Defined.

Lemma never_a_timer_witness :
  timers (@run_events ascii_only [Mount; Render; ChangeTicker (str "MSFT")] init)
  = ∅.
Proof.
  exact (proj1 (@never_a_timer ascii_only _
                  (@reachable_run_events ascii_only
                     [Mount; Render; ChangeTicker (str "MSFT")] init
                     (@reachable_init ascii_only)))).
Defined.

Lemma no_fetch_after_unmount_witness :
  let w := @run_events ascii_only [Mount; Unmount] init in
  requests_of (effects (@run_events ascii_only
     [Settle 0 (Resolved loaded_response); Render; ChangeTicker (str "MSFT");
      TimerFire 1%positive] w))
  = requests_of (effects w).
Proof.
  cbv zeta.
  refine (proj2 (@no_fetch_after_unmount ascii_only _
                   (@run_events ascii_only [Mount; Unmount] init) _ _)).
  - apply reachable_run_events. constructor.
  - vm_compute. reflexivity.
Defined.

(** * The old frontend *)

(** ** [utils/api.js] *)

(** What [fetchStockData] and [fetchStockList] give for each way the fetch
    settles. *)
Lemma old_run_fetchStockData net symbol :
  Old.run net (Old.fetchStockData symbol)
  = let url := Old.BASE_URL ++ str "/api/stock/" ++ symbol in
    match net url with
    | Rejected e =>
        ([Old.Requested url;
          Old.ErrorLogged (str "Error fetching stock data:") e], inl e)
    | Resolved r =>
        if ok r then
          match json_body r with
          | inl e =>
              ([Old.Requested url;
                Old.ErrorLogged (str "Error fetching stock data:") e], inl e)
          | inr v => ([Old.Requested url], inr v)
          end
        else
          let e := Error (str "HTTP error! status: "
                          ++ Number_toString (status r)) in
          ([Old.Requested url;
            Old.ErrorLogged (str "Error fetching stock data:") e], inl e)
    end.
Proof.
  unfold Old.fetchStockData. cbn [Old.try_catch Old.run]. cbv zeta.
  destruct (net (Old.BASE_URL ++ str "/api/stock/" ++ symbol)) as [r|e];
    [|reflexivity].
  destruct (ok r); cbn [negb]; [|reflexivity].
  destruct (json_body r); reflexivity.
Qed.

Lemma old_run_fetchStockList net :
  Old.run net Old.fetchStockList
  = let url := Old.BASE_URL ++ str "/api/stock/list" in
    match net url with
    | Rejected e =>
        ([Old.Requested url;
          Old.ErrorLogged (str "Error fetching stock list:") e], inl e)
    | Resolved r =>
        if ok r then
          match json_body r with
          | inl e =>
              ([Old.Requested url;
                Old.ErrorLogged (str "Error fetching stock list:") e], inl e)
          | inr v => ([Old.Requested url], inr v)
          end
        else
          let e := Error (str "HTTP error! status: "
                          ++ Number_toString (status r)) in
          ([Old.Requested url;
            Old.ErrorLogged (str "Error fetching stock list:") e], inl e)
    end.
Proof.
  unfold Old.fetchStockList. cbn [Old.try_catch Old.run]. cbv zeta.
  destruct (net (Old.BASE_URL ++ str "/api/stock/list")) as [r|e];
    [|reflexivity].
  destruct (ok r); cbn [negb]; [|reflexivity].
  destruct (json_body r); reflexivity.
Qed.

Lemma old_fetchStockData_requests net symbol :
  Old.requests_of (fst (Old.run net (Old.fetchStockData symbol)))
  = [Old.BASE_URL ++ str "/api/stock/" ++ symbol].
Proof.
  rewrite old_run_fetchStockData. cbv zeta.
  destruct (net _) as [r|e]; [|reflexivity].
  destruct (ok r); [|reflexivity]. destruct (json_body r); reflexivity.
Qed.

(** X11. [fetchStockData] makes exactly one request, whatever happens, to
    the base URL followed by [/api/stock/] and the symbol as it was given:
    not trimmed, not upper-cased, not escaped, and not refused when it is
    empty. [fetchStockList] makes exactly one request to [/api/stock/list],
    which is also the URL that [fetchStockData] requests for the symbol
    "list". *)
Theorem old_fetch_requests (net : jsstring -> fetch_outcome) (symbol : jsstring) :
  Old.requests_of (fst (Old.run net (Old.fetchStockData symbol)))
  = [Old.BASE_URL ++ str "/api/stock/" ++ symbol] /\
  Old.requests_of (fst (Old.run net Old.fetchStockList))
  = [Old.BASE_URL ++ str "/api/stock/list"] /\
  Old.requests_of (fst (Old.run net (Old.fetchStockData (str "list"))))
  = Old.requests_of (fst (Old.run net Old.fetchStockList)).
Proof.
  pose proof (old_fetchStockData_requests net) as A.
  assert (B : Old.requests_of (fst (Old.run net Old.fetchStockList))
              = [Old.BASE_URL ++ str "/api/stock/list"]).
  { rewrite old_run_fetchStockList. cbv zeta.
    destruct (net _) as [r|e]; [|reflexivity].
    destruct (ok r); [|reflexivity]. destruct (json_body r); reflexivity. }
  split; [apply A|]. split; [exact B|]. rewrite A, B. reflexivity.
Qed.

(** X12. Every failure of [fetchStockData] is logged once with
    [console.error], under "Error fetching stock data:", and thrown again
    as it is; a success logs nothing. A status outside 200..299 fails with
    "HTTP error! status: " and the code, whatever the body; on a success
    status the parsed body is returned as it is, with no check of its
    shape, [null] included. *)
Theorem old_fetch_results (net : jsstring -> fetch_outcome) (symbol : jsstring) :
  let out := Old.run net (Old.fetchStockData symbol) in
  let url := Old.BASE_URL ++ str "/api/stock/" ++ symbol in
  (forall e, snd out = inl e ->
     Old.errors_logged (fst out) = [(str "Error fetching stock data:", e)]) /\
  (forall v, snd out = inr v -> Old.errors_logged (fst out) = []) /\
  (forall r, net url = Resolved r -> ok r = false ->
     snd out = inl (Error (str "HTTP error! status: "
                           ++ Number_toString (status r)))) /\
  (forall r v, net url = Resolved r -> ok r = true -> json_body r = inr v ->
     snd out = inr v) /\
  (forall e, net url = Rejected e -> snd out = inl e).
Proof.
  cbv zeta. rewrite old_run_fetchStockData. cbv zeta.
  destruct (net (Old.BASE_URL ++ str "/api/stock/" ++ symbol)) as [r|e].
  - destruct (ok r) eqn:Hok.
    + destruct (json_body r) as [e|v] eqn:Hb; cbn [fst snd].
      * repeat split; try discriminate.
        -- intros e' [= <-]. reflexivity.
        -- intros r' [= <-]. congruence.
        -- intros r' v [= <-]. congruence.
      * repeat split; try discriminate.
        -- intros r' [= <-]. congruence.
        -- intros r' v' [= <-] _. congruence.
    + cbn [fst snd]. repeat split; try discriminate.
      * intros e' [= <-]. reflexivity.
      * intros r' [= <-] _. reflexivity.
      * intros r' v [= <-]. congruence.
  - cbn [fst snd]. repeat split; try discriminate.
    + intros e' [= <-]. reflexivity.
    + intros e' [= <-]. reflexivity.
Qed.

(** ** [SearchBar] *)

Lemma is_prefix_spec a b : Old.is_prefix a b = true <-> exists c, b = a ++ c.
Proof.
  revert b. induction a as [|x a IH]; intros b; cbn [Old.is_prefix].
  - split; [intros _; now exists b | reflexivity].
  - destruct b as [|y b].
    + split; [discriminate | intros [c Hc]; discriminate].
    + rewrite andb_true_iff, N.eqb_eq, IH. split.
      * intros [-> [c ->]]. now exists c.
      * intros [c [= -> ->]]. split; [reflexivity | now exists c].
Qed.

Lemma is_infix_spec (hay needle : list N) :
  Old.is_infix hay needle = true <-> contains hay needle.
Proof.
  unfold contains. induction hay as [|h hay IH]; cbn [Old.is_infix].
  - rewrite is_prefix_spec. split.
    + intros [c Hc]. exists [], c. exact Hc.
    + intros (pre & post & E). destruct pre; [|discriminate].
      now exists post.
  - rewrite orb_true_iff, is_prefix_spec, IH. split.
    + intros [[c Hc] | (pre & post & ->)].
      * exists [], c. exact Hc.
      * now exists (h :: pre), post.
    + intros (pre & post & E). destruct pre as [|p pre].
      * left. now exists post.
      * right. injection E as -> ->. now exists pre, post.
Qed.

Lemma array_includes_spec items x :
  existsb (fun item => match item with
                       | JStr s => jsstring_eqb s x
                       | _ => false
                       end) items = true
  <-> In (JStr x) items.
Proof.
  rewrite existsb_exists. split.
  - intros (item & Hin & Hit). destruct item; try discriminate.
    unfold jsstring_eqb in Hit. apply bool_decide_eq_true in Hit. now subst.
  - intros Hin. exists (JStr x). split; [exact Hin|].
    unfold jsstring_eqb. now apply bool_decide_eq_true.
Qed.

Lemma handleSubmit_array_cases {T : CaseTable} (items : list json)
    (term : jsstring) :
  (In (JStr (toUpperCase term)) items ->
   Old.handleSubmit (JArr items) term
   = ([Old.PreventDefault; Old.OnSearch (toUpperCase term)], None)) /\
  (~ In (JStr (toUpperCase term)) items ->
   Old.handleSubmit (JArr items) term
   = ([Old.PreventDefault; Old.Alert (str "Stock not found in the list.")],
      None)).
Proof.
  unfold Old.handleSubmit. cbn [Old.includes]. split.
  - intros Hin. apply array_includes_spec in Hin. now rewrite Hin.
  - intros Hn. destruct (existsb _ items) eqn:E; [|reflexivity].
    apply array_includes_spec in E. contradiction.
Qed.

(** X13. With an array for the list, [handleSubmit] first prevents the
    default action of the form and then does exactly one thing: it calls
    [onSearch] with the upper-cased search term when that string is an
    element of the list, and alerts "Stock not found in the list."
    otherwise. The term is not trimmed. With the empty list of the initial
    state every submit alerts. *)
Theorem handleSubmit_array {T : CaseTable} (items : list json) (term : jsstring) :
  (In (JStr (toUpperCase term)) items ->
   Old.handleSubmit (JArr items) term
   = ([Old.PreventDefault; Old.OnSearch (toUpperCase term)], None)) /\
  (~ In (JStr (toUpperCase term)) items ->
   Old.handleSubmit (JArr items) term
   = ([Old.PreventDefault; Old.Alert (str "Stock not found in the list.")],
      None)) /\
  Old.handleSubmit (JArr []) term
  = ([Old.PreventDefault; Old.Alert (str "Stock not found in the list.")], None).
Proof.
  destruct (handleSubmit_array_cases items term) as [Hin Hout].
  split; [exact Hin|]. split; [exact Hout|].
  apply (proj2 (handleSubmit_array_cases [] term)). intros [].
Qed.

Lemma handleSubmit_array_witness :
  @Old.handleSubmit ascii_only (JArr [JStr (str "AAPL"); JStr (str "MSFT")])
    (str "msft")
  = ([Old.PreventDefault; Old.OnSearch (str "MSFT")], None) /\
  @Old.handleSubmit ascii_only (JArr [JStr (str "AAPL"); JStr (str "MSFT")])
    (str " msft")
  = ([Old.PreventDefault; Old.Alert (str "Stock not found in the list.")], None).
Proof.
  split.
  - apply (proj1 (@handleSubmit_array ascii_only
                    [JStr (str "AAPL"); JStr (str "MSFT")] (str "msft"))).
    right. left. reflexivity.
  - apply (proj1 (proj2 (@handleSubmit_array ascii_only
                    [JStr (str "AAPL"); JStr (str "MSFT")] (str " msft")))).
    intros [H|[H|[]]]; vm_compute in H; discriminate.
Defined.

(** X14. Whatever the list is, a symbol that [handleSubmit] hands to
    [onSearch] is its own upper-case form and is found in the list. So an
    entry of the list that is not written in upper case can never be
    picked, whatever is typed. *)
Theorem onSearch_symbol_is_upper {T : CaseTable} {L : CaseTableLaws}
    (stockList : json) (term symbol : jsstring) :
  In (Old.OnSearch symbol) (fst (Old.handleSubmit stockList term)) ->
  toUpperCase symbol = symbol /\
  Old.includes stockList symbol = inr true /\
  forall entry, toUpperCase entry <> entry -> symbol <> entry.
Proof.
  unfold Old.handleSubmit.
  destruct (Old.includes stockList (toUpperCase term)) as [e|[|]] eqn:E;
    cbn [fst In].
  - intros [H|[]]. discriminate.
  - intros [H|[H|[]]]; [discriminate|]. injection H as <-.
    split; [apply toUpperCase_idempotent|]. split; [exact E|].
    intros entry Hne Heq. apply Hne. rewrite <- Heq.
    apply toUpperCase_idempotent.
  - intros [H|[H|[]]]; discriminate.
Qed.

Lemma onSearch_symbol_is_upper_witness :
  str "MSFT" <> str "msft".
Proof.
  refine (proj2 (proj2 (@onSearch_symbol_is_upper ascii_only ascii_only_laws
            (JArr [JStr (str "msft"); JStr (str "MSFT")]) (str "msft")
            (str "MSFT") _)) (str "msft") _).
  - vm_compute. right. left. reflexivity.
  - vm_compute. discriminate.
Defined.

(** X15. The list is whatever the backend sent, and [handleSubmit] does not
    check it. When it is [null], a boolean, a number or an object, every
    submit throws a [TypeError] after preventing the default action, with
    neither a search nor an alert. When it is a string, a term is accepted
    exactly when the code units of its upper-case form occur somewhere in
    the code units of that string. *)
Theorem handleSubmit_not_an_array {T : CaseTable} (term : jsstring) :
  (exists m,
     Old.handleSubmit JNull term = ([Old.PreventDefault], Some (TypeError m))) /\
  (forall b, exists m,
     Old.handleSubmit (JBool b) term
     = ([Old.PreventDefault], Some (TypeError m))) /\
  (forall q, exists m,
     Old.handleSubmit (JNum q) term
     = ([Old.PreventDefault], Some (TypeError m))) /\
  (forall fields, exists m,
     Old.handleSubmit (JObj fields) term
     = ([Old.PreventDefault], Some (TypeError m))) /\
  (forall s,
     Old.handleSubmit (JStr s) term
     = ([Old.PreventDefault; Old.OnSearch (toUpperCase term)], None)
     <-> contains (Old.code_units s) (Old.code_units (toUpperCase term))) /\
  (forall s,
     ~ contains (Old.code_units s) (Old.code_units (toUpperCase term)) ->
     Old.handleSubmit (JStr s) term
     = ([Old.PreventDefault; Old.Alert (str "Stock not found in the list.")],
        None)).
Proof.
  unfold Old.handleSubmit. cbn [Old.includes]. unfold Old.String_includes.
  split; [eexists; reflexivity|].
  split; [intros; eexists; reflexivity|].
  split; [intros; eexists; reflexivity|].
  split; [intros; eexists; reflexivity|].
  split.
  - intros s. rewrite <- is_infix_spec.
    destruct (Old.is_infix (Old.code_units s)
                (Old.code_units (toUpperCase term))).
    + split; reflexivity.
    + split; discriminate.
  - intros s Hn. rewrite <- is_infix_spec in Hn.
    destruct (Old.is_infix (Old.code_units s)
                (Old.code_units (toUpperCase term))); [now destruct Hn|].
    reflexivity.
Qed.

(** A half of a surrogate pair is found in a string that holds the pair,
    as it is by [String.prototype.includes]. *)
Lemma surrogate_half_is_found :
  @Old.handleSubmit ascii_only (JStr [0x1F600]) [0xD83D]
  = ([Old.PreventDefault; Old.OnSearch [0xD83D]], None).
Proof. vm_compute. reflexivity. Qed.

(** ** [Dashboard] *)

Lemma message_or_nonempty err fallback :
  fallback <> [] -> Old.message_or err fallback <> [].
Proof.
  intros Hf. unfold Old.message_or.
  destruct (message err) as [|c m]; cbn [string_truthy];
    [exact Hf | discriminate].
Qed.

(** X16. When [handleSearch] ends in a failure, the data is [null] (it was
    cleared when the search began and is not set), [loading] is off, the
    symbol stays selected, and the error is a non-empty string: the message
    of the failure, or "Failed to load stock data." when that message is
    empty. For a status outside 200..299 the error is "HTTP error! status: "
    followed by the code. *)
Theorem handleSearch_failure (net : jsstring -> fetch_outcome)
    (symbol : jsstring) (st : Old.Dashboard) (e : js_error) :
  snd (Old.run net (Old.fetchStockData symbol)) = inl e ->
  let st' := snd (Old.handleSearch net symbol st) in
  Old.stockData st' = JNull /\
  Old.loading st' = false /\
  Old.selectedStock st' = Some symbol /\
  Old.stockList st' = Old.stockList st /\
  (exists m, Old.error st' = Some m /\ m <> [] /\
             (message e <> [] -> m = message e) /\
             (message e = [] -> m = str "Failed to load stock data.")) /\
  (forall r, net (Old.BASE_URL ++ str "/api/stock/" ++ symbol) = Resolved r ->
     ok r = false ->
     Old.error st'
     = Some (str "HTTP error! status: " ++ Number_toString (status r)) /\
     contains (str "HTTP error! status: " ++ Number_toString (status r))
       (Number_toString (status r))).
Proof.
  intros He. cbv zeta. unfold Old.handleSearch.
  destruct (Old.run net (Old.fetchStockData symbol)) as [t r0] eqn:R.
  cbn [snd] in He. subst r0. cbn [snd Old.handleSearch_resume
    Old.handleSearch_begin Old.stockData Old.loading Old.selectedStock
    Old.stockList Old.error].
  repeat split.
  - exists (Old.message_or e (str "Failed to load stock data.")).
    split; [reflexivity|]. split; [|split].
    + apply message_or_nonempty. vm_compute. discriminate.
    + unfold Old.message_or. destruct (message e); [congruence | reflexivity].
    + unfold Old.message_or. now intros ->.
  - pose proof (old_run_fetchStockData net symbol) as R'. cbv zeta in R'.
    rewrite R, H, H0 in R'. injection R' as _ ->.
    unfold Old.message_or. cbn [message app]. reflexivity.
  - apply contains_end.
Qed.

Lemma handleSearch_failure_witness :
  Old.error (snd (Old.handleSearch (fun _ => Resolved error_response)
                    (str "AAPL") Old.initial))
  = Some (str "HTTP error! status: 500") /\
  Old.stockData (snd (Old.handleSearch (fun _ => Resolved error_response)
                        (str "AAPL") Old.initial))
  = JNull.
Proof.
  assert (He : snd (Old.run (fun _ => Resolved error_response)
                      (Old.fetchStockData (str "AAPL")))
               = inl (Error (str "HTTP error! status: 500")))
    by (vm_compute; reflexivity).
  pose proof (handleSearch_failure (fun _ => Resolved error_response)
                (str "AAPL") Old.initial _ He) as H.
  cbv zeta in H. destruct H as (Hd & _ & _ & _ & _ & Hs).
  split; [|exact Hd].
  exact (proj1 (Hs error_response eq_refl eq_refl)).
Defined.

Lemma handleSearch_success_state net symbol st v :
  snd (Old.run net (Old.fetchStockData symbol)) = inr v ->
  Old.stockData (snd (Old.handleSearch net symbol st)) = v /\
  Old.error (snd (Old.handleSearch net symbol st)) = None.
Proof.
  intros Hv. unfold Old.handleSearch.
  destruct (Old.run net (Old.fetchStockData symbol)) as [t r0].
  cbn [snd] in Hv. subst r0. split; reflexivity.
Qed.

(** X17. [handleSearch] forgets what was shown before: as soon as it
    begins, whatever the state was, the data is [null], the error is
    cleared, [loading] is on and the symbol is selected. When it ends in a
    success the data is the parsed body as it is, of whatever shape, the
    error is still [null] and [loading] is off. *)
Theorem handleSearch_success (net : jsstring -> fetch_outcome)
    (symbol : jsstring) (st : Old.Dashboard) (v : json) :
  snd (Old.run net (Old.fetchStockData symbol)) = inr v ->
  let st1 := Old.handleSearch_begin symbol st in
  let st' := snd (Old.handleSearch net symbol st) in
  (Old.stockData st1 = JNull /\ Old.error st1 = None /\
   Old.loading st1 = true /\ Old.selectedStock st1 = Some symbol) /\
  (Old.stockData st' = v /\ Old.error st' = None /\
   Old.loading st' = false /\ Old.selectedStock st' = Some symbol /\
   Old.stockList st' = Old.stockList st).
Proof.
  intros Hv. cbv zeta. unfold Old.handleSearch.
  destruct (Old.run net (Old.fetchStockData symbol)) as [t r0].
  cbn [snd] in Hv. subst r0. repeat split.
Qed.

Lemma handleSearch_success_witness :
  Old.stockData (snd (Old.handleSearch (fun _ => Resolved malformed_response)
                        (str "AAPL") Old.initial))
  = JObj [(str "history", JStr (str "not-an-array"))].
Proof.
  refine (proj1 (proj2 (handleSearch_success
            (fun _ => Resolved malformed_response) (str "AAPL") Old.initial
            (JObj [(str "history", JStr (str "not-an-array"))]) _))).
  vm_compute. reflexivity.
Defined.

(** X18. From the form to the network: with an array for the list, a
    submit whose upper-cased term is in the list makes exactly one request,
    to [/api/stock/] followed by the upper-cased term, and selects that
    symbol; any other submit makes no request and leaves the state of
    [Dashboard] as it is. *)
Theorem submit_requests {T : CaseTable} (net : jsstring -> fetch_outcome)
    (term : jsstring) (items : list json) (st : Old.Dashboard) :
  Old.stockList st = JArr items ->
  (In (JStr (toUpperCase term)) items ->
   Old.requests_of (fst (snd (Old.submit net term st)))
   = [Old.BASE_URL ++ str "/api/stock/" ++ toUpperCase term] /\
   Old.selectedStock (snd (snd (Old.submit net term st)))
   = Some (toUpperCase term)) /\
  (~ In (JStr (toUpperCase term)) items ->
   snd (Old.submit net term st) = ([], st)).
Proof.
  intros Hl. unfold Old.submit. rewrite Hl.
  destruct (handleSubmit_array_cases items term) as (Hin & Hout).
  split.
  - intros H. rewrite (Hin H). cbn [snd]. split.
    + unfold Old.handleSearch.
      pose proof (old_fetchStockData_requests net (toUpperCase term)) as R.
      destruct (Old.run net (Old.fetchStockData (toUpperCase term))) as [t r].
      exact R.
    + unfold Old.handleSearch.
      destruct (Old.run net (Old.fetchStockData (toUpperCase term))) as [t [e|v]];
        reflexivity.
  - intros H. rewrite (Hout H). reflexivity.
Qed.

Lemma submit_requests_witness :
  let st := snd (Old.loadStockList
                   (fun _ => Resolved
                      {| status := 200; statusText := str "OK";
                         json_body := inr (JArr [JStr (str "AAPL")]) |})
                   Old.initial) in
  Old.requests_of (fst (snd (@Old.submit ascii_only sample_net (str "aapl") st)))
  = [str "http://127.0.0.1:5000/api/stock/AAPL"].
Proof.
  cbv zeta.
  refine (proj1 (proj1 (@submit_requests ascii_only sample_net (str "aapl")
                          [JStr (str "AAPL")] _ _) _)).
  - vm_compute. reflexivity.
  - left. reflexivity.
Defined.

(** X19. Nothing checks the body before it is rendered: when [handleSearch]
    has stored a truthy body in which [stock] is absent or [null], the
    render of the card throws a [TypeError], since [StockCard] reads
    [stock.symbol]. A body that is falsy renders no card and shows no
    error. *)
Theorem card_needs_stock (net : jsstring -> fetch_outcome)
    (symbol : jsstring) (st : Old.Dashboard) (v : json) :
  snd (Old.run net (Old.fetchStockData symbol)) = inr v ->
  let st' := snd (Old.handleSearch net symbol st) in
  (truthy v = true ->
   Old.member (str "stock") v = inr None \/
   Old.member (str "stock") v = inr (Some JNull) ->
   exists m, Old.render_card st' = Some (inl (TypeError m))) /\
  (truthy v = false -> Old.render_card st' = None /\ Old.error st' = None).
Proof.
  intros Hv. cbv zeta.
  destruct (handleSearch_success_state net symbol st v Hv) as (Hd & He).
  unfold Old.render_card. rewrite Hd. split.
  - intros Ht Hs. rewrite Ht. destruct Hs as [-> | ->]; eexists; reflexivity.
  - intros Ht. rewrite Ht. now split.
Qed.

Lemma card_needs_stock_witness :
  exists m,
    Old.render_card (snd (Old.handleSearch (fun _ => Resolved malformed_response)
                            (str "AAPL") Old.initial))
    = Some (inl (TypeError m)).
Proof.
  refine (proj1 (card_needs_stock (fun _ => Resolved malformed_response)
                   (str "AAPL") Old.initial
                   (JObj [(str "history", JStr (str "not-an-array"))]) _) _ _).
  - vm_compute. reflexivity.
  - reflexivity.
  - left. vm_compute. reflexivity.
Defined.

(** X20. The list of stocks is loaded without a check. On a success the
    list is the parsed body, whatever it is. On a failure the list stays as
    it was and the error is a non-empty string; when that happens at the
    start, the list is still empty, so every submit alerts and no stock can
    be requested. In both cases [loading] is off at the end. *)
Theorem loadStockList_outcomes {T : CaseTable} (net : jsstring -> fetch_outcome)
    (st : Old.Dashboard) :
  let st' := snd (Old.loadStockList net st) in
  Old.loading st' = false /\
  Old.stockData st' = Old.stockData st /\
  (forall v, snd (Old.run net Old.fetchStockList) = inr v ->
     Old.stockList st' = v /\ Old.error st' = Old.error st) /\
  (forall e, snd (Old.run net Old.fetchStockList) = inl e ->
     Old.stockList st' = Old.stockList st /\
     (exists m, Old.error st' = Some m /\ m <> []) /\
     (Old.stockList st = JArr [] ->
      forall net' term,
        Old.submit net' term st'
        = ([Old.PreventDefault; Old.Alert (str "Stock not found in the list.")],
           None, ([], st')))).
Proof.
  cbv zeta. unfold Old.loadStockList.
  destruct (Old.run net Old.fetchStockList) as [t [e|v]]; cbn [snd].
  - split; [reflexivity|]. split; [reflexivity|]. split; [discriminate|].
    intros e' [= <-]. split; [reflexivity|]. split.
    + eexists. split; [reflexivity|]. apply message_or_nonempty.
      vm_compute. discriminate.
    + intros Hl net' term. unfold Old.submit.
      cbn [Old.loadStockList_resume Old.loadStockList_begin Old.stockList].
      rewrite Hl.
      rewrite (proj2 (handleSubmit_array_cases [] term)) by (intros []).
      reflexivity.
  - split; [reflexivity|]. split; [reflexivity|]. split; [|discriminate].
    intros v' [= <-]. split; reflexivity.
Qed.
